(** * posixspawn-hook: the spawn interception library of Substitute

    A shallow embedding of [darwin-bootstrap/posixspawn-hook.c] and the
    properties of its environment rewriter, Mach-O inspector, injection
    policy, unrestriction handshake and sandbox override.

    Conventions.
    - A pointer the code tests for NULL ([attrp], [envp], [argv[0]]) or gets
      from [malloc] is an [option]; [path] and [argv] are valid pointers, as
      the spawn primitives require of their callers. [pidp] may be NULL, as
      [posix_spawn] allows: the code never tests it and reads [*pidp] at
      line 354, so whether it can be read is a fact of the [World]
      ([pidp_ok]), like the answers of libc.
    - Whatever the code asks outside itself (the spawn primitives, libc, the
      file system) is answered by a [World]; what the code did is recorded as
      a trace of events, so that theorems can speak about the order of calls
      and about what is still held when a call returns.
    - [ib_log] and the [IB_VERBOSE] blocks write log lines only and are left
      out. *)

From Stdlib Require Import ZArith List Bool Lia Arith Permutation.
From Stdlib Require Import Strings.String Strings.Ascii Strings.Byte.
From Stdlib Require Import Numbers.DecimalString.
Import ListNotations.

Open Scope list_scope.
Open Scope string_scope.

(** ** C strings *)

(** [advance(&env, template)]: when [template] is a prefix of the string,
    the pointer moves past it ([Some] of what follows); otherwise it stays
    ([None]). *)
Fixpoint advance (strp template : string) {struct template} : option string :=
  match template with
  | EmptyString => Some strp
  | String t template' =>
      match strp with
      | String c rest => if Ascii.eqb c t then advance rest template' else None
      | EmptyString => None
      end
  end.

(** [strrchr(path, '/')]: the text after the last slash, if there is a slash. *)
Fixpoint strrchr_slash (path : string) : option string :=
  match path with
  | EmptyString => None
  | String c rest =>
      match strrchr_slash rest with
      | Some tail => Some tail
      | None => if Ascii.eqb c "/" then Some rest else None
      end
  end.

Definition xbasename (path : string) : string :=
  match strrchr_slash path with
  | Some after_slash => after_slash
  | None => path
  end.

(** The two companion libraries ([static const char bl_dylib[]], [psh_dylib[]]). *)
Definition bl_dylib : string := "/Library/Substitute/Helpers/bundle-loader.dylib".
Definition psh_dylib : string := "/Library/Substitute/Helpers/posixspawn-hook.dylib".

Definition DYLD_INSERT_LIBRARIES_eq : string := "DYLD_INSERT_LIBRARIES=".

(** ** The environment rewriter (lines 249-315 of the hook) *)

(** Outcome of the scan of [my_envp] (lines 249-265). *)
Inductive scan_result : Type :=
| ScanSkip                                   (* goto skip *)
| ScanDone (safe_mode : bool) (orig_dyld_insert : string) (env_count : nat).

(** The prefix test of line 255: the first [advance] that succeeds moves [env]. *)
Definition advance_safe_mode (env : string) : option string :=
  match advance env "_MSSafeMode=" with
  | Some v => Some v
  | None => advance env "_SubstituteSafeMode="
  end.

Fixpoint scan_env (ep : list string) (safe_mode : bool)
         (orig_dyld_insert : string) (env_count : nat) : scan_result :=
  match ep with
  | [] => ScanDone safe_mode orig_dyld_insert env_count
  | env :: ep' =>
      let env_count := S env_count in
      match advance_safe_mode env with
      | Some v =>
          if (v =? "0") || (v =? "NO") then
            scan_env ep' safe_mode orig_dyld_insert env_count   (* continue *)
          else if (v =? "1") || (v =? "YES") then
            scan_env ep' true orig_dyld_insert env_count
          else ScanSkip
      | None =>
          match advance env DYLD_INSERT_LIBRARIES_eq with
          | Some v => scan_env ep' safe_mode v env_count
          | None => scan_env ep' safe_mode orig_dyld_insert env_count
          end
      end
  end.

(** [strchr(p, ':') ?: (p + strlen(p))]: the bytes of [p, next) and, when
    [*next] is a colon, the text at [next + 1]. *)
Fixpoint upto_colon (p : string) : string * option string :=
  match p with
  | EmptyString => (EmptyString, None)
  | String c rest =>
      if Ascii.eqb c ":" then (EmptyString, Some rest)
      else let '(piece, next) := upto_colon rest in (String c piece, next)
  end.

Definition is_substitute (piece : string) : bool :=
  (piece =? bl_dylib) || (piece =? psh_dylib).

(** What the buffer holds after [newp_orig] once a piece was appended
    (lines 280-286): a colon goes first unless nothing was written yet. *)
Definition append_piece (newv piece : string) : string :=
  match newv with
  | EmptyString => piece
  | _ => newv ++ ":" ++ piece
  end.

(** The loop of lines 272-290. Each round either stops or moves [p] past a
    colon, so [fuel] beyond the length of [p] is never used up. *)
Fixpoint dil_loop (fuel : nat) (p newv : string) : string :=
  match fuel with
  | O => newv
  | S fuel' =>
      match p with
      | EmptyString => newv                       (* while ( *p ) *)
      | _ =>
          let '(piece, next) := upto_colon p in
          let newv' := if is_substitute piece then newv else append_piece newv piece in
          match next with
          | None => newv'                         (* if (!*next) break; *)
          | Some rest => dil_loop fuel' rest newv'
          end
      end
  end.

(** Lines 269-296: the text written after ["DYLD_INSERT_LIBRARIES="]. *)
Definition rebuilt_value (safe_mode : bool) (dylib_to_add orig_dyld_insert : string)
  : string :=
  let newv := dil_loop (S (String.length orig_dyld_insert)) orig_dyld_insert "" in
  if safe_mode then newv else append_piece newv dylib_to_add.

(** Lines 299-303: [new] after the rebuild; [None] is the freed, NULL string. *)
Definition rebuilt_new (safe_mode : bool) (dylib_to_add orig_dyld_insert : string)
  : option string :=
  match rebuilt_value safe_mode dylib_to_add orig_dyld_insert with
  | EmptyString => None
  | v => Some (DYLD_INSERT_LIBRARIES_eq ++ v)
  end.

Definition is_dyld_insert (env : string) : bool :=
  match advance env DYLD_INSERT_LIBRARIES_eq with
  | Some _ => true
  | None => false
  end.

(** Lines 304-315: the array [new_envp] without its terminating NULL. *)
Definition build_envp (my_envp : list string) (env_count : nat) (new : option string)
  : list string :=
  (filter (fun env => negb (is_dyld_insert env)) (firstn env_count my_envp)
     ++ match new with Some s => [s] | None => [] end)%list.

(** The rewriter as one function of the effective environment. *)
Inductive rewritten : Type :=
| RewriteSkip
| Rewritten (safe_mode : bool) (new_envp : list string).

Definition rewrite_env (dylib_to_add : string) (my_envp : list string) : rewritten :=
  match scan_env my_envp false "" 0 with
  | ScanSkip => RewriteSkip
  | ScanDone safe_mode orig_dyld_insert env_count =>
      Rewritten safe_mode
        (build_envp my_envp env_count (rebuilt_new safe_mode dylib_to_add orig_dyld_insert))
  end.

(** *** The rewriter in the words of its specification

    These definitions are what the theorems compare the code against; none of
    them is used by the model of the hook. *)

(** The text cut at every colon: [split_colons "a::b" = ["a"; ""; "b"]]. *)
Fixpoint split_colons (s : string) : list string :=
  match s with
  | EmptyString => [EmptyString]
  | String c rest =>
      if Ascii.eqb c ":" then EmptyString :: split_colons rest
      else match split_colons rest with
           | x :: xs => String c x :: xs
           | [] => [String c EmptyString]
           end
  end.

Fixpoint drop_trailing_empty (l : list string) : list string :=
  match l with
  | [] => []
  | [EmptyString] => []
  | x :: xs => x :: drop_trailing_empty xs
  end.

Fixpoint drop_leading_empty (l : list string) : list string :=
  match l with
  | EmptyString :: xs => drop_leading_empty xs
  | _ => l
  end.

(** The elements of a colon-separated value; the empty text after a final
    colon (and the empty value itself) is no element. *)
Definition dil_elements (v : string) : list string :=
  drop_trailing_empty (split_colons v).

Definition join_colons (l : list string) : string := String.concat ":" l.

(** The values of all entries that set the injected-libraries variable. *)
Fixpoint dyld_insert_values (envp : list string) : list string :=
  match envp with
  | [] => []
  | env :: rest =>
      match advance env DYLD_INSERT_LIBRARIES_eq with
      | Some v => v :: dyld_insert_values rest
      | None => dyld_insert_values rest
      end
  end.

Definition first_dyld_insert (envp : list string) : string :=
  hd EmptyString (dyld_insert_values envp).

Definition last_dyld_insert (envp : list string) : string :=
  last (dyld_insert_values envp) EmptyString.

Definition other_entries (envp : list string) : list string :=
  filter (fun env => negb (is_dyld_insert env)) envp.

(** The rebuilt value, from the captured one: companions dropped, the
    requested library appended unless safe mode is on, empty elements in
    front left out. *)
Definition merged_value (safe_mode : bool) (dylib_to_add captured : string) : string :=
  join_colons
    (drop_leading_empty
       (filter (fun e => negb (is_substitute e)) (dil_elements captured)
          ++ (if safe_mode then [] else [dylib_to_add]))%list).

Definition rebuilt_entry (value : string) : list string :=
  match value with
  | EmptyString => []
  | _ => [DYLD_INSERT_LIBRARIES_eq ++ value]
  end.

(** The environment the specification describes when the value is captured
    from the FIRST occurrence of the variable. *)
Definition spec_env_first (safe_mode : bool) (dylib_to_add : string)
           (envp : list string) : list string :=
  (other_entries envp
     ++ rebuilt_entry (merged_value safe_mode dylib_to_add (first_dyld_insert envp)))%list.

(** The same with the value captured from the LAST occurrence. *)
Definition spec_env_last (safe_mode : bool) (dylib_to_add : string)
           (envp : list string) : list string :=
  (other_entries envp
     ++ rebuilt_entry (merged_value safe_mode dylib_to_add (last_dyld_insert envp)))%list.

(** The injected-libraries value of an environment, as the loader of the
    next rewrite sees it: the value of its last such entry, if any. *)
Definition dyld_insert_of (envp : list string) : option string :=
  match rev (dyld_insert_values envp) with
  | [] => None
  | v :: _ => Some v
  end.

(** The value as an environment shows it: an empty value gives no entry. *)
Definition value_if_any (v : string) : option string :=
  match v with
  | EmptyString => None
  | String _ _ => Some v
  end.

(** The text ends in a colon. *)
Fixpoint ends_in_colon (s : string) : bool :=
  match s with
  | EmptyString => false
  | String c EmptyString => Ascii.eqb c ":"
  | String _ rest => ends_in_colon rest
  end.

(** Safe mode in the words of the specification: the recognized values of
    the two variables, and the verdict of the last of them. *)
Inductive safe_verdict : Type := SafeDisabled | SafeEnabled | SafeInvalid.

Definition classify_safe_value (v : string) : safe_verdict :=
  if (v =? "0") || (v =? "NO") then SafeDisabled
  else if (v =? "1") || (v =? "YES") then SafeEnabled
  else SafeInvalid.

Fixpoint safe_mode_values (envp : list string) : list string :=
  match envp with
  | [] => []
  | env :: rest =>
      match advance_safe_mode env with
      | Some v => v :: safe_mode_values rest
      | None => safe_mode_values rest
      end
  end.

Definition spec_last_value_wins (envp : list string) : safe_verdict :=
  classify_safe_value
    (last (filter (fun v => negb (v =? "")) (safe_mode_values envp)) "0").

(** What the scan of the code decided, as a verdict. *)
Definition scan_verdict (envp : list string) : safe_verdict :=
  match scan_env envp false "" 0 with
  | ScanSkip => SafeInvalid
  | ScanDone true _ _ => SafeEnabled
  | ScanDone false _ _ => SafeDisabled
  end.

(** ** The world around one interception call *)

Open Scope Z_scope.

(** The three buffers of the hook and the one of the inspector. *)
Inductive block : Type := BlkMyAttr | BlkNew | BlkNewEnvp | BlkCmdsBuf.

Inductive resource : Type :=
| Heap (b : block)
| InspectorFd            (* the descriptor opened by [looks_restricted] *)
| MarkerFd.              (* descriptor 255, made by [dup2(2, 255)] *)

(** [old_posix_spawn] and [old_posix_spawnp]. *)
Inductive prim : Type := Posix_spawn | Posix_spawnp.

(** A spawn attributes object: its flags word and the rest of its bytes. *)
Record posix_spawnattr_t : Type :=
  { psa_flags : Z; psa_rest : list byte }.

Record posix_spawn_file_actions_t : Type :=
  { psfa_bytes : list byte }.

(** The arguments of a spawn primitive but [pidp]; a NULL pointer is [None]. *)
Record spawn_args : Type :=
  { sa_path : string;
    sa_file_actions : option posix_spawn_file_actions_t;
    sa_attrp : option posix_spawnattr_t;
    sa_argv : list string;
    sa_envp : option (list string) }.

(** What a spawn primitive does: it returns [ret] with [*pidp] set to [pid],
    or the process image is replaced and nothing returns. *)
Inductive spawn_result : Type :=
| SpawnReturns (ret pid : Z)
| SpawnReplaces.

(** [long blah[5]]: the five trailing argument slots of [sandbox_check]. *)
Record va_slots : Type :=
  { blah0 : Z; blah1 : Z; blah2 : Z; blah3 : Z; blah4 : Z }.

Inductive event : Type :=
| Acquire (r : resource)
| Release (r : resource)
| SetCloexec                                    (* fcntl(255, F_SETFD, FD_CLOEXEC) *)
| Spawn (f : prim) (a : spawn_args) (r : spawn_result)
| Waitpid (pid : Z)
| SandboxCheck (pid : Z) (op : string) (type : Z) (blah : va_slots) (r : Z).

Definition trace : Type := list event.

(** Everything the code reads from outside itself. The spawn primitives and
    the original sandbox checker may answer according to what happened
    before. *)
Record World : Type :=
  { is_launchd : bool;
    environ : list string;                       (* *_NSGetEnviron() *)
    getpid : Z;
    access_R_OK : string -> bool;                (* access(p, R_OK) == 0 *)
    file_bytes : string -> option (list byte);   (* [None]: open fails *)
    malloc_ok : block -> bool;
    getflags_ok : bool;                          (* posix_spawnattr_getflags *)
    attr_init : option posix_spawnattr_t;        (* posix_spawnattr_init *)
    setflags_ok : bool;                          (* posix_spawnattr_setflags *)
    dup2_ok : bool;                              (* dup2(2, 255) == 255 *)
    fcntl_ok : bool;
    pidp_ok : bool;                              (* pidp != NULL *)
    spawn : trace -> prim -> spawn_args -> spawn_result;
    cstring_at : Z -> option string;             (* the C string at an address *)
    old_sandbox_check : trace -> Z -> string -> Z -> va_slots -> Z }.

(** How a piece of code ends. *)
Inductive outcome (A : Type) : Type :=
| Returns (a : A) (tr : trace)
| Crashes (tr : trace)            (* a NULL pointer was dereferenced *)
| Replaced (tr : trace).          (* the process image was replaced *)

Arguments Returns {A} a tr.
Arguments Crashes {A} tr.
Arguments Replaced {A} tr.

Definition M (A : Type) : Type := trace -> outcome A.

Definition ret {A} (a : A) : M A := fun tr => Returns a tr.

Definition bind {A B} (m : M A) (k : A -> M B) : M B :=
  fun tr =>
    match m tr with
    | Returns a tr' => k a tr'
    | Crashes tr' => Crashes tr'
    | Replaced tr' => Replaced tr'
    end.

Definition emit (e : event) : M unit := fun tr => Returns tt (tr ++ [e])%list.

Definition crash {A} : M A := fun tr => Crashes tr.

Declare Scope hook_scope.
Delimit Scope hook_scope with hook.
Notation "x <- m ;; k" := (bind m (fun x => k))
  (at level 61, m at next level, right associativity) : hook_scope.
Notation "m ;; k" := (bind m (fun _ => k))
  (at level 61, right associativity) : hook_scope.
Open Scope hook_scope.

(** [free(p)]: nothing happens for a NULL pointer. *)
Definition free (live : bool) (b : block) : M unit :=
  if live then emit (Release (Heap b)) else ret tt.

(** ** The binary restriction inspector *)

Definition u8 (b : byte) : Z := Z.of_N (Byte.to_N b).

(** Four bytes of memory read as a [uint32_t] by the little-endian
    processors Darwin runs on. *)
Definition le32 (b0 b1 b2 b3 : byte) : Z :=
  Z.lor (u8 b0)
    (Z.lor (Z.shiftl (u8 b1) 8) (Z.lor (Z.shiftl (u8 b2) 16) (Z.shiftl (u8 b3) 24))).

(** The same four bytes as a big-endian number. *)
Definition be32 (b0 b1 b2 b3 : byte) : Z :=
  Z.lor (Z.shiftl (u8 b0) 24)
    (Z.lor (Z.shiftl (u8 b1) 16) (Z.lor (Z.shiftl (u8 b2) 8) (u8 b3))).

(** [OSSwapInt32], which is also [ntohl] on a little-endian host. *)
Definition OSSwapInt32 (x : Z) : Z :=
  Z.lor (Z.shiftl (Z.land x 255) 24)
    (Z.lor (Z.shiftl (Z.land (Z.shiftr x 8) 255) 16)
       (Z.lor (Z.shiftl (Z.land (Z.shiftr x 16) 255) 8)
          (Z.land (Z.shiftr x 24) 255))).

Definition ntohl (x : Z) : Z := OSSwapInt32 x.

(** Constants of <mach-o/loader.h> and <mach-o/fat.h>. *)
Definition FAT_MAGIC : Z := 0xcafebabe.
Definition MH_MAGIC : Z := 0xfeedface.
Definition MH_MAGIC_64 : Z := 0xfeedfacf.
Definition MH_CIGAM : Z := 0xcefaedfe.
Definition MH_CIGAM_64 : Z := 0xcffaedfe.

(** [sizeof(u)]: a [fat_header] (8 bytes) with one [fat_arch] (20 bytes), or
    a [mach_header] (28 bytes). *)
Definition sizeof_u : nat := 28.
Definition sizeof_mach_header : Z := 28.
Definition sizeof_mach_header_64 : Z := 32.

(** The [uint32_t] at byte offset [at_] of the union [u]. *)
Definition field32 (u : list byte) (at_ : nat) : Z :=
  match skipn at_ u with
  | b0 :: b1 :: b2 :: b3 :: _ => le32 b0 b1 b2 b3
  | _ => 0
  end.

Definition u_magic (u : list byte) : Z := field32 u 0.
Definition u_fh_nfat_arch (u : list byte) : Z := field32 u 4.
Definition u_fa1_offset (u : list byte) : Z := field32 u 16.
Definition u_mh_sizeofcmds (u : list byte) : Z := field32 u 20.

(** [pread] on a regular file: the bytes that are there, at most [nbyte]. *)
Definition pread (content : list byte) (nbyte : nat) (offset : Z) : list byte :=
  firstn nbyte (skipn (Z.to_nat offset) content).

(** [const char sectname[] = "__restrict"], all [sizeof(sectname)] = 11
    bytes of it: the name and its terminating NUL. *)
Definition sectname : list byte :=
  (list_byte_of_string "__restrict" ++ [x00])%list.

Fixpoint starts_with (pat l : list byte) : bool :=
  match pat, l with
  | [], _ => true
  | p :: pat', x :: l' => Byte.eqb p x && starts_with pat' l'
  | _ :: _, [] => false
  end.

(** [memmem(big, big_len, little, little_len) != NULL]. *)
Fixpoint memmem (big little : list byte) : bool :=
  starts_with little big ||
  match big with
  | [] => false
  | _ :: big' => memmem big' little
  end.

(** The [switch] on [u.magic]: [(swap, is64)], or [None] for the default. *)
Definition classify_magic (magic : Z) : option (bool * bool) :=
  if magic =? MH_MAGIC then Some (false, false)
  else if magic =? MH_MAGIC_64 then Some (false, true)
  else if magic =? MH_CIGAM then Some (true, false)
  else if magic =? MH_CIGAM_64 then Some (true, true)
  else None.

(** Lines 93-108: the header that is classified and the offset it was read
    at; [None] is [goto end]. *)
Definition read_header (content : list byte) : option (Z * list byte) :=
  let u := pread content sizeof_u 0 in
  if negb (Nat.eqb (List.length u) sizeof_u) then None
  else if ntohl (u_magic u) =? FAT_MAGIC then
    if u_fh_nfat_arch u =? 0 then None
    else
      let offset := ntohl (u_fa1_offset u) in
      let u' := pread content sizeof_u offset in
      if negb (Nat.eqb (List.length u') sizeof_u) then None
      else Some (offset, u')
  else Some (0, u).

(** Lines 131-144, once [cmds_buf] was allocated or not. A NULL buffer makes
    [pread] fail as soon as there is a byte to store. *)
Definition scan_load_commands (content : list byte) (buf_ok : bool)
           (sizeofcmds offset : Z) : bool :=
  let avail := pread content (Z.to_nat sizeofcmds) offset in
  let actual :=
    if buf_ok then Z.of_nat (List.length avail)
    else match avail with [] => 0 | _ => -1 end in
  if (actual <? 0) || negb (actual =? sizeofcmds) then false
  else memmem avail sectname.

Definition looks_restricted (w : World) (filename : string) : M bool :=
  match file_bytes w filename with
  | None => ret false
  | Some content =>
      emit (Acquire InspectorFd) ;;
      verdict <-
        match read_header content with
        | None => ret false
        | Some (offset, u) =>
            match classify_magic (u_magic u) with
            | None => ret false
            | Some (swap, is64) =>
                let sizeofcmds := u_mh_sizeofcmds u in
                let sizeofcmds := if swap then OSSwapInt32 sizeofcmds else sizeofcmds in
                let offset :=
                  (offset + (if is64 then sizeof_mach_header_64 else sizeof_mach_header))
                    mod 2 ^ 32 in
                let buf_ok := malloc_ok w BlkCmdsBuf in
                (if buf_ok then emit (Acquire (Heap BlkCmdsBuf)) else ret tt) ;;
                let found := scan_load_commands content buf_ok sizeofcmds offset in
                free buf_ok BlkCmdsBuf ;;
                ret found
            end
        end ;;
      emit (Release InspectorFd) ;;
      ret verdict
  end.

(** ** The spawn hook *)

(** Flags of <spawn.h> on Darwin. *)
Definition POSIX_SPAWN_SETEXEC : Z := 0x0040.
Definition POSIX_SPAWN_START_SUSPENDED : Z := 0x0080.

(** A call of a spawn primitive, with what it answered. *)
Definition call_spawn (w : World) (f : prim) (a : spawn_args) : M (Z * Z) :=
  fun tr =>
    match spawn w tr f a with
    | SpawnReturns r pid => Returns (r, pid) (tr ++ [Spawn f a (SpawnReturns r pid)])%list
    | SpawnReplaces => Replaced (tr ++ [Spawn f a SpawnReplaces])%list
    end.

Definition unrestrict_prog : string := "/Library/Substitute/Helpers/unrestrict".

(** [sprintf(pid_s, "%ld", (long) pid)]. *)
Definition pid_s (pid : Z) : string := NilZero.string_of_int (Z.to_int pid).

Definition flag_s (b : bool) : string := if b then "1"%string else "0"%string.

Definition unrestrict_args (pid : Z) (should_resume is_exec : bool) : spawn_args :=
  {| sa_path := unrestrict_prog;
     sa_file_actions := None;
     sa_attrp := None;
     sa_argv := [unrestrict_prog; pid_s pid; flag_s should_resume; flag_s is_exec];
     sa_envp := Some ["_MSSafeMode=1"%string] |}.

Definition spawn_unrestrict (w : World) (pid : Z) (should_resume is_exec : bool)
  : M bool :=
  r <- call_spawn w Posix_spawn (unrestrict_args pid should_resume is_exec) ;;
  if negb (fst r =? 0) then ret false
  else emit (Waitpid (snd r)) ;; ret true.

(** [argv[0] ?: ""]. *)
Definition argv0_or_empty (argv : list string) : string :=
  match hd_error argv with
  | Some s => s
  | None => EmptyString
  end.

(** Lines 188-224: the library to add, or [None] for [goto skip]. *)
Definition which_dylib (w : World) (path : string) (argv : list string)
  : option string :=
  if is_launchd w then
    if negb (path =? "/usr/libexec/xpcproxy")%string then None
    else Some psh_dylib
  else
    if (path =? "/Library/Substitute/Helpers/substituted")%string
       || (path =? "/usr/sbin/notifyd")%string
       || (xbasename (argv0_or_empty argv) =? "sshd")%string
    then None
    else Some bl_dylib.

(** Lines 363-365. Each flag tells whether the pointer is not NULL. *)
Definition cleanup (new_envp new my_attr : bool) : M unit :=
  free new_envp BlkNewEnvp ;; free new BlkNew ;; free my_attr BlkMyAttr.

Definition is_some {A} (o : option A) : bool :=
  match o with Some _ => true | None => false end.

Section Hook.
Variable w : World.
Variable old : prim.
Variable path : string.
Variable file_actions : option posix_spawn_file_actions_t.
Variable attrp : option posix_spawnattr_t.
Variable argv : list string.
Variable envp : option (list string).

(** The arguments as the caller gave them. *)
Definition caller_args : spawn_args :=
  {| sa_path := path; sa_file_actions := file_actions; sa_attrp := attrp;
     sa_argv := argv; sa_envp := envp |}.

(** The labels [crap:] and [skip:], which differ by a log line only, then
    [cleanup:]. *)
Definition skip (new_envp new my_attr : bool) : M (Z * Z) :=
  r <- call_spawn w old caller_args ;;
  cleanup new_envp new my_attr ;;
  ret r.

(** Lines 344-357 and [cleanup:]: the call with the hook's attributes and
    environment, the read of [*pidp] and the helper after a spawn that
    returned 0. *)
Definition spawn_injected (my_attr : posix_spawnattr_t) (new_envp : list string)
           (new : bool) (need_unrestrict was_suspended : bool) : M (Z * Z) :=
  r <- call_spawn w old
         {| sa_path := path; sa_file_actions := file_actions;
            sa_attrp := Some my_attr; sa_argv := argv;
            sa_envp := Some new_envp |} ;;
  (if negb (fst r =? 0) then ret tt
   else
     (* pid_t pid = *pidp; *)
     if negb (pidp_ok w) then crash
     else if need_unrestrict
          then (_ <- spawn_unrestrict w (snd r) (negb was_suspended) false ;; ret tt)
          else ret tt) ;;
  cleanup true new true ;;
  ret r.

(** Lines 323-343, then the spawn. *)
Definition unrestrict_and_spawn (flags : Z) (my_attr : posix_spawnattr_t)
           (new_envp : list string) (new : bool) : M (Z * Z) :=
  need_unrestrict <- looks_restricted w path ;;
  if need_unrestrict then
    let was_suspended := negb (Z.land flags POSIX_SPAWN_START_SUSPENDED =? 0) in
    let flags := Z.lor flags POSIX_SPAWN_START_SUSPENDED in
    if negb (setflags_ok w) then skip true new true
    else
      let my_attr := {| psa_flags := flags; psa_rest := psa_rest my_attr |} in
      if negb (Z.land flags POSIX_SPAWN_SETEXEC =? 0) then
        if negb (dup2_ok w) then skip true new true
        else
          emit (Acquire MarkerFd) ;;
          if negb (fcntl_ok w) then skip true new true
          else
            emit SetCloexec ;;
            started <- spawn_unrestrict w (getpid w) (negb was_suspended) true ;;
            if negb started then skip true new true
            else spawn_injected my_attr new_envp new true was_suspended
      else spawn_injected my_attr new_envp new true was_suspended
  else spawn_injected my_attr new_envp new false false.

(** Lines 249-318, with [my_attr] already made. *)
Definition rewrite_and_spawn (flags : Z) (dylib_to_add : string)
           (my_attr : posix_spawnattr_t) : M (Z * Z) :=
  let my_envp := match envp with Some e => e | None => environ w end in
  match scan_env my_envp false "" 0 with
  | ScanSkip => skip false false true
  | ScanDone safe_mode orig_dyld_insert env_count =>
      (* new = malloc(...); stpcpy(new, ...) *)
      if negb (malloc_ok w BlkNew) then crash
      else
        emit (Acquire (Heap BlkNew)) ;;
        let new := rebuilt_new safe_mode dylib_to_add orig_dyld_insert in
        free (negb (is_some new)) BlkNew ;;
        (* new_envp = malloc(...); *outp++ = ... *)
        if negb (malloc_ok w BlkNewEnvp) then crash
        else
          emit (Acquire (Heap BlkNewEnvp)) ;;
          let new_envp := build_envp my_envp env_count new in
          if safe_mode then skip true (is_some new) true
          else unrestrict_and_spawn flags my_attr new_envp (is_some new)
  end.

(** The hook. It returns what the primitive returned and what it stored in
    [*pidp], if [pidp] is not NULL. *)
Definition hook_posix_spawn_generic : M (Z * Z) :=
  (* short flags = 0; if (attrp && posix_spawnattr_getflags(attrp, &flags)) goto crap; *)
  match (match attrp with
         | Some attr => if getflags_ok w then Some (psa_flags attr) else None
         | None => Some 0
         end) with
  | None => skip false false false
  | Some flags =>
      match which_dylib w path argv with
      | None => skip false false false
      | Some dylib_to_add =>
          if negb (access_R_OK w dylib_to_add) then skip false false false
          else
            (* lines 233-243 *)
            match (match attrp with
                   | Some attr => if malloc_ok w BlkMyAttr then Some attr else None
                   | None => attr_init w
                   end) with
            | None => skip false false false
            | Some my_attr =>
                emit (Acquire (Heap BlkMyAttr)) ;;
                rewrite_and_spawn flags dylib_to_add my_attr
            end
      end
  end.
End Hook.

Definition hook_posix_spawn (w : World) := hook_posix_spawn_generic w Posix_spawn.
Definition hook_posix_spawnp (w : World) := hook_posix_spawn_generic w Posix_spawnp.

(** ** The sandbox override *)

Definition hook_sandbox_check (w : World) (pid : Z) (op : string) (type : Z)
           (blah : va_slots) : M Z :=
  let forward : M Z :=
    fun tr =>
      let r := old_sandbox_check w tr pid op type blah in
      Returns r (tr ++ [SandboxCheck pid op type blah r])%list in
  if (op =? "mach-lookup")%string then
    (* const char *name = (void * ) blah[0]; strcmp(name, ...) *)
    match cstring_at w (blah0 blah) with
    | None => crash
    | Some name =>
        if (name =? "com.ex.substituted")%string then ret 0
        else forward
    end
  else forward.

(** ** Reading a trace *)

(** The calls of spawn primitives, in order. *)
Fixpoint spawn_calls (tr : trace) : list (prim * spawn_args) :=
  match tr with
  | [] => []
  | Spawn f a _ :: tr' => (f, a) :: spawn_calls tr'
  | _ :: tr' => spawn_calls tr'
  end.

Definition resource_eqb (a b : resource) : bool :=
  match a, b with
  | Heap BlkMyAttr, Heap BlkMyAttr
  | Heap BlkNew, Heap BlkNew
  | Heap BlkNewEnvp, Heap BlkNewEnvp
  | Heap BlkCmdsBuf, Heap BlkCmdsBuf
  | InspectorFd, InspectorFd
  | MarkerFd, MarkerFd => true
  | _, _ => false
  end.

Fixpoint remove_one (r : resource) (l : list resource) : list resource :=
  match l with
  | [] => []
  | x :: l' => if resource_eqb r x then l' else x :: remove_one r l'
  end.

(** The resources held after a trace, starting from [held]. *)
Fixpoint live_from (held : list resource) (tr : trace) : list resource :=
  match tr with
  | [] => held
  | Acquire r :: tr' => live_from (r :: held) tr'
  | Release r :: tr' => live_from (remove_one r held) tr'
  | _ :: tr' => live_from held tr'
  end.

Definition live (tr : trace) : list resource := live_from [] tr.

(** No colon occurs in the text. *)
Fixpoint colon_free (s : string) : bool :=
  match s with
  | EmptyString => true
  | String c rest => negb (Ascii.eqb c ":") && colon_free rest
  end.

(** One round of the loop of lines 272-290 seen from the buffer. *)
Definition keep_piece (newv piece : string) : string :=
  if is_substitute piece then newv else append_piece newv piece.

Definition value_invalid (v : string) : bool :=
  match classify_safe_value v with SafeInvalid => true | _ => false end.

Definition value_enables (v : string) : bool :=
  match classify_safe_value v with SafeEnabled => true | _ => false end.

(** The value of a rebuilt entry, if there is one. *)
Definition nonempty_value (v : string) : list string :=
  match v with
  | EmptyString => []
  | String _ _ => [v]
  end.

(** The calls of spawn primitives with their answers, in order. *)
Fixpoint spawn_events (tr : trace) : list (prim * spawn_args * spawn_result) :=
  match tr with
  | [] => []
  | Spawn f a r :: tr' => (f, a, r) :: spawn_events tr'
  | _ :: tr' => spawn_events tr'
  end.

(** The original checker calls, in order. *)
Fixpoint sandbox_events (tr : trace) : list (Z * string * Z * va_slots * Z) :=
  match tr with
  | [] => []
  | SandboxCheck pid op type blah r :: tr' =>
      (pid, op, type, blah, r) :: sandbox_events tr'
  | _ :: tr' => sandbox_events tr'
  end.

(** A piece of code run from an empty history. *)
Definition run {A} (m : M A) : outcome A := m [].

(** The verdict of the inspector and what it did to get it. *)
Definition restricted (w : World) (filename : string) : bool :=
  match run (looks_restricted w filename) with
  | Returns b _ => b
  | _ => false
  end.

Definition inspector_trace (w : World) (filename : string) : trace :=
  match run (looks_restricted w filename) with
  | Returns _ tr => tr
  | _ => []
  end.

(** The outcome of a call that did nothing to create a process but call
    [old] once, with arguments [a], and hand its answer back. *)
Definition only_call (out : outcome (Z * Z)) (old : prim) (a : spawn_args) : Prop :=
  match out with
  | Returns r tr => spawn_events tr = [(old, a, SpawnReturns (fst r) (snd r))]
  | Replaced tr => spawn_events tr = [(old, a, SpawnReplaces)]
  | Crashes _ => False
  end.

(** The events of an outcome. *)
Definition outcome_trace {A} (out : outcome A) : trace :=
  match out with
  | Returns _ tr => tr
  | Crashes tr => tr
  | Replaced tr => tr
  end.

(** What [cleanup:] releases. *)
Definition cleanup_trace (new_envp new my_attr : bool) : trace :=
  ((if new_envp then [Release (Heap BlkNewEnvp)] else [])
     ++ (if new then [Release (Heap BlkNew)] else [])
     ++ (if my_attr then [Release (Heap BlkMyAttr)] else []))%list.

(** The effective environment [my_envp]. *)
Definition effective_env (w : World) (envp : option (list string)) : list string :=
  match envp with Some e => e | None => environ w end.

(** [flags] after lines 168-170 when the read did not fail. *)
Definition caller_flags (attrp : option posix_spawnattr_t) : Z :=
  match attrp with Some attr => psa_flags attr | None => 0%Z end.

(** *** The inspector in the words of its specification *)

(** The [n] bytes of the file at [offset], when all of them are there. *)
Definition bytes_at (content : list byte) (offset n : Z) : option (list byte) :=
  let l := firstn (Z.to_nat n) (skipn (Z.to_nat offset) content) in
  if Z.of_nat (List.length l) =? n then Some l else None.

(** The big-endian number at byte offset [at_] of a header. *)
Definition be32_at (h : list byte) (at_ : nat) : Z :=
  match skipn at_ h with
  | b0 :: b1 :: b2 :: b3 :: _ => be32 b0 b1 b2 b3
  | _ => 0
  end.

Definition le32_at (h : list byte) (at_ : nat) : Z := field32 h at_.

(** Where the Mach-O header to inspect starts: at 0, or for a fat container
    with at least one architecture, at the offset of the first one. *)
Definition spec_slice (content : list byte) : option Z :=
  match bytes_at content 0 28 with
  | None => None
  | Some h =>
      if be32_at h 0 =? FAT_MAGIC then
        if be32_at h 4 =? 0 then None else Some (be32_at h 16)
      else Some 0
  end.

(** The size of a Mach-O header of one of the four forms and the size of
    the load commands it announces, each read in the byte order of the
    header. *)
Definition spec_mach_header (h : list byte) : option (Z * Z) :=
  if le32_at h 0 =? MH_MAGIC then Some (28, le32_at h 20)
  else if le32_at h 0 =? MH_MAGIC_64 then Some (32, le32_at h 20)
  else if be32_at h 0 =? MH_MAGIC then Some (28, be32_at h 20)
  else if be32_at h 0 =? MH_MAGIC_64 then Some (32, be32_at h 20)
  else None.

(** The pattern occurs in the bytes as a contiguous run. *)
Definition occurs (pattern l : list byte) : Prop :=
  exists before after, l = (before ++ pattern ++ after)%list.

(** The ten bytes of the section name alone. *)
Definition sectname_without_nul : list byte := list_byte_of_string "__restrict".

(** The load commands the specification lets the inspector look at. The sum
    of the slice offset and the header size is a [uint32_t]. *)
Definition spec_load_commands (content : list byte) : option (list byte) :=
  match spec_slice content with
  | None => None
  | Some slice =>
      match bytes_at content slice 28 with
      | None => None
      | Some h =>
          match spec_mach_header h with
          | None => None
          | Some (hsize, sizeofcmds) =>
              bytes_at content ((slice + hsize) mod 2 ^ 32) sizeofcmds
          end
      end
  end.

(** ** Sample inputs *)

(** A 32-bit Mach-O header in the byte order of the host that announces
    [sizeofcmds] < 256 bytes of load commands. *)
Definition thin_header (sizeofcmds : byte) : list byte :=
  ([xce; xfa; xed; xfe] ++ repeat x00 16 ++ [sizeofcmds; x00; x00; x00]
     ++ repeat x00 4)%list.

(** A binary whose load commands are the section name and its NUL. *)
Definition restricted_binary : list byte := (thin_header x0b ++ sectname)%list.

(** A binary with a section called ["__restricted"]. *)
Definition lookalike_binary : list byte :=
  (thin_header x0d ++ list_byte_of_string "__restricted" ++ [x00])%list.

(** A fat container with one architecture at offset 32 holding
    [restricted_binary]. *)
Definition fat_binary : list byte :=
  ([xca; xfe; xba; xbe; x00; x00; x00; x01] ++ repeat x00 8
     ++ [x00; x00; x00; x20] ++ repeat x00 12 ++ restricted_binary)%list.

(** A world where every call succeeds and [pidp] is not NULL: [fs] is the
    file system, [mallocs] tells which allocations succeed, the helper
    answers [helper_ret] and every other spawn [spawn_ret], both with pid
    42. *)
Definition sample_world (launchd : bool) (fs : string -> option (list byte))
           (mallocs : block -> bool) (helper_ret spawn_ret : Z) : World :=
  {| is_launchd := launchd;
     environ := ["HOME=/"%string];
     getpid := 77;
     access_R_OK := fun _ => true;
     file_bytes := fs;
     malloc_ok := mallocs;
     getflags_ok := true;
     attr_init := Some {| psa_flags := 0; psa_rest := [] |};
     setflags_ok := true;
     dup2_ok := true;
     fcntl_ok := true;
     pidp_ok := true;
     spawn := fun _ _ a =>
                if (sa_path a =? unrestrict_prog)%string
                then SpawnReturns helper_ret 42
                else SpawnReturns spawn_ret 42;
     cstring_at := fun p => if p =? 4096 then Some "com.ex.substituted"%string
                            else if p =? 8192 then Some "com.apple.other"%string
                            else None;
     old_sandbox_check := fun _ _ _ _ _ => 1 |}.

Definition no_files : string -> option (list byte) := fun _ => None.
Definition all_mallocs : block -> bool := fun _ => true.

Definition block_eqb (a b : block) : bool := resource_eqb (Heap a) (Heap b).

(** Every allocation succeeds but the one of block [b]. *)
Definition all_mallocs_but (b : block) : block -> bool :=
  fun b' => negb (block_eqb b b').

(** Every release in the trace gives back something that is held. *)
Fixpoint releases_held (held : list resource) (tr : trace) : bool :=
  match tr with
  | [] => true
  | Acquire r :: tr' => releases_held (r :: held) tr'
  | Release r :: tr' =>
      existsb (resource_eqb r) held && releases_held (remove_one r held) tr'
  | _ :: tr' => releases_held held tr'
  end.

(** The marker descriptor in a trace: made by [dup2(2, 255)], closed,
    marked close-on-exec. *)
Definition makes_marker (e : event) : bool :=
  match e with Acquire MarkerFd => true | _ => false end.

Definition closes_marker (e : event) : bool :=
  match e with Release MarkerFd => true | _ => false end.

Definition sets_cloexec (e : event) : bool :=
  match e with SetCloexec => true | _ => false end.

Definition marker_made (tr : trace) : bool := existsb makes_marker tr.
Definition marker_closed (tr : trace) : bool := existsb closes_marker tr.
Definition cloexec_set (tr : trace) : bool := existsb sets_cloexec tr.

(** The world [w] with a [fcntl(255, F_SETFD, FD_CLOEXEC)] that fails. *)
Definition fcntl_failing (w : World) : World :=
  {| is_launchd := is_launchd w;
     environ := environ w;
     getpid := getpid w;
     access_R_OK := access_R_OK w;
     file_bytes := file_bytes w;
     malloc_ok := malloc_ok w;
     getflags_ok := getflags_ok w;
     attr_init := attr_init w;
     setflags_ok := setflags_ok w;
     dup2_ok := dup2_ok w;
     fcntl_ok := false;
     pidp_ok := pidp_ok w;
     spawn := spawn w;
     cstring_at := cstring_at w;
     old_sandbox_check := old_sandbox_check w |}.

(** ** Further definitions for the properties of the code *)

(** No slash occurs in the text. *)
Fixpoint slash_free (s : string) : bool :=
  match s with
  | EmptyString => true
  | String c rest => negb (Ascii.eqb c "/") && slash_free rest
  end.

(** The size given to [malloc] for [new] (lines 266-268). *)
Definition new_alloc_size (orig_dyld_insert : string) : nat :=
  (String.length DYLD_INSERT_LIBRARIES_eq          (* sizeof("...") - 1 *)
   + (String.length psh_dylib + 1)                 (* sizeof(psh_dylib) *)
   + String.length orig_dyld_insert + 1)%nat.

(** The number of pointers given to [malloc] for [new_envp] (line 304). *)
Definition new_envp_slots (env_count : nat) : nat := (env_count + 2)%nat.

Definition nonempty (s : string) : bool :=
  match s with
  | EmptyString => false
  | String _ _ => true
  end.

(** A file system with the container [fat_binary] at ["/fat"] and its
    slice, cut out, everywhere else. *)
Definition fat_and_slice : string -> option (list byte) :=
  fun p => if (p =? "/fat")%string then Some fat_binary
           else Some (skipn 32 fat_binary).

(** [my_attr] after lines 233-243; [None] is [goto crap]. *)
Definition my_attr_of (w : World) (attrp : option posix_spawnattr_t)
  : option posix_spawnattr_t :=
  match attrp with
  | Some attr => if malloc_ok w BlkMyAttr then Some attr else None
  | None => attr_init w
  end.

(** A call of the unrestrict helper by the original [posix_spawn]. *)
Definition helper_call (e : prim * spawn_args * spawn_result) : Prop :=
  exists pid should_resume is_exec,
    fst e = (Posix_spawn, unrestrict_args pid should_resume is_exec).

(** The arguments of [old] on the injected path for library [lib]. *)
Definition injected_args (w : World) (path : string)
           (fa : option posix_spawn_file_actions_t) (attrp : option posix_spawnattr_t)
           (argv : list string) (envp : option (list string))
           (lib : string) (my_attr : posix_spawnattr_t) : spawn_args :=
  {| sa_path := path;
     sa_file_actions := fa;
     sa_attrp :=
       Some (if restricted w path
             then {| psa_flags := Z.lor (caller_flags attrp) POSIX_SPAWN_START_SUSPENDED;
                     psa_rest := psa_rest my_attr |}
             else my_attr);
     sa_argv := argv;
     sa_envp := Some (spec_env_last false lib (effective_env w envp)) |}.

(** The events of the handshake with the helper. *)
Definition handshake_event (e : event) : bool :=
  match e with
  | Acquire MarkerFd | SetCloexec | Waitpid _ => true
  | _ => false
  end.

(** The event of opening the target binary. *)
Definition inspector_event (e : event) : bool :=
  match e with
  | Acquire InspectorFd => true
  | _ => false
  end.

(** The process-creating calls of a hook call that returned [r]: [old]
    once, with the arguments [a] and the answer [r], and at most one call
    of the helper on either side. *)
Definition target_call (old : prim) (a : spawn_args) (r : Z * Z) (tr : trace) : Prop :=
  exists pre post,
    spawn_events tr = (pre ++ (old, a, SpawnReturns (fst r) (snd r)) :: post)%list
    /\ (List.length pre <= 1)%nat /\ (List.length post <= 1)%nat
    /\ Forall helper_call pre /\ Forall helper_call post.

(** ** The constructor *)

(** [strstr(haystack, needle)]: the first place of the haystack where the
    needle starts, or [None] for NULL. *)
Fixpoint strstr (haystack needle : string) : option string :=
  match advance haystack needle with
  | Some _ => Some haystack
  | None =>
      match haystack with
      | EmptyString => None
      | String _ rest => strstr rest needle
      end
  end.

(** Lines 442-443 of [init]: what the constructor leaves in [is_launchd]
    for the hooks, from the name of the main image. *)
Definition init (image0 : string) (w : World) : World :=
  {| is_launchd := is_some (strstr image0 "launchd");
     environ := environ w;
     getpid := getpid w;
     access_R_OK := access_R_OK w;
     file_bytes := file_bytes w;
     malloc_ok := malloc_ok w;
     getflags_ok := getflags_ok w;
     attr_init := attr_init w;
     setflags_ok := setflags_ok w;
     dup2_ok := dup2_ok w;
     fcntl_ok := fcntl_ok w;
     pidp_ok := pidp_ok w;
     spawn := spawn w;
     cstring_at := cstring_at w;
     old_sandbox_check := old_sandbox_check w |}.

(** * Properties *)

Close Scope Z_scope.
Close Scope hook_scope.

(** ** C strings *)

Lemma advance_append : forall t s, advance (t ++ s) t = Some s.
Proof.
  induction t as [|c t IH]; intros s; simpl; [reflexivity|].
  rewrite Ascii.eqb_refl. apply IH.
Qed.

Lemma advance_inv : forall t s v, advance s t = Some v -> s = t ++ v.
Proof.
  induction t as [|c t IH]; intros s v H; simpl in *.
  - congruence.
  - destruct s as [|d s]; [discriminate|].
    destruct (Ascii.eqb_spec d c) as [->|]; [|discriminate].
    f_equal. now apply IH.
Qed.

Lemma dyld_insert_not_safe_mode : forall env v,
  advance env DYLD_INSERT_LIBRARIES_eq = Some v -> advance_safe_mode env = None.
Proof.
  intros env v H. apply advance_inv in H. subst env. reflexivity.
Qed.

Lemma safe_mode_not_dyld_insert : forall env v,
  advance_safe_mode env = Some v -> advance env DYLD_INSERT_LIBRARIES_eq = None.
Proof.
  intros env v H. unfold advance_safe_mode in H.
  destruct (advance env "_MSSafeMode=") eqn:E1.
  - apply advance_inv in E1. subst env. reflexivity.
  - apply advance_inv in H. subst env. reflexivity.
Qed.

Lemma append_assoc : forall a b c : string, (a ++ b) ++ c = a ++ (b ++ c).
Proof. induction a; intros; simpl; [reflexivity|]. now rewrite IHa. Qed.

Lemma append_empty_r : forall a : string, a ++ "" = a.
Proof. induction a; simpl; [reflexivity|]. now rewrite IHa. Qed.

Lemma append_eq_empty : forall a b : string, a ++ b = "" -> a = "" /\ b = "".
Proof. destruct a; simpl; intros b H; [auto|discriminate]. Qed.

Lemma strrchr_slash_some : forall path tail,
  strrchr_slash path = Some tail ->
  slash_free tail = true
  /\ exists dir, path = (dir ++ "/" ++ tail)%string.
Proof.
  induction path as [|c path IH]; intros tail H; cbn [strrchr_slash] in H.
  - discriminate.
  - destruct (strrchr_slash path) as [t|] eqn:E.
    + inversion H; subst t. destruct (IH tail eq_refl) as [Hf [dir Hd]].
      split; [exact Hf|]. exists (String c dir). rewrite Hd. reflexivity.
    + destruct (Ascii.eqb_spec c "/") as [->|Hc]; [|discriminate].
      inversion H; subst tail. split.
      * clear IH H. induction path as [|d path IHp]; [reflexivity|].
        cbn [strrchr_slash] in E. cbn [slash_free].
        destruct (strrchr_slash path); [discriminate|].
        destruct (Ascii.eqb d "/"); [discriminate|]. cbn [negb andb].
        now apply IHp.
      * exists EmptyString. reflexivity.
Qed.

Lemma strrchr_slash_none : forall path,
  strrchr_slash path = None <-> slash_free path = true.
Proof.
  induction path as [|c path IH]; cbn [strrchr_slash slash_free].
  - split; reflexivity.
  - destruct (strrchr_slash path) as [t|].
    + split; [discriminate|]. intros H. apply andb_true_iff in H as [_ H].
      apply IH in H. discriminate.
    + destruct (Ascii.eqb c "/"); cbn [negb andb].
      * split; discriminate.
      * split; intros _; [now apply IH|reflexivity].
Qed.

Lemma xbasename_suffix : forall path,
  exists dir,
    path = (dir ++ xbasename path)%string
    /\ (dir = EmptyString \/ exists d, dir = (d ++ "/")%string).
Proof.
  intros path. unfold xbasename.
  destruct (strrchr_slash path) as [tail|] eqn:E.
  - destruct (strrchr_slash_some _ _ E) as [Hf [dir Hd]].
    exists (dir ++ "/")%string. split.
    + rewrite Hd. now rewrite append_assoc.
    + right. now exists dir.
  - exists EmptyString. split; [reflexivity|now left].
Qed.

Lemma slash_free_append : forall a b,
  slash_free (a ++ b) = slash_free a && slash_free b.
Proof.
  induction a as [|c a IH]; intros b; cbn [append slash_free]; [reflexivity|].
  rewrite IH. now rewrite andb_assoc.
Qed.

Lemma xbasename_dir_name : forall dir name,
  slash_free name = true -> xbasename (dir ++ "/" ++ name) = name.
Proof.
  intros dir name Hn. unfold xbasename.
  induction dir as [|c dir IH].
  - cbn [append strrchr_slash].
    apply strrchr_slash_none in Hn. rewrite Hn. reflexivity.
  - change (String c dir ++ "/" ++ name)%string
      with (String c (dir ++ "/" ++ name)).
    cbn [strrchr_slash].
    destruct (strrchr_slash (dir ++ "/" ++ name)) as [t|] eqn:E.
    + exact IH.
    + exfalso. apply strrchr_slash_none in E.
      rewrite slash_free_append in E. apply andb_true_iff in E as [_ E].
      discriminate.
Qed.

Lemma length_append : forall a b : string,
  String.length (a ++ b) = (String.length a + String.length b)%nat.
Proof. induction a as [|c a IH]; intros b; cbn; [reflexivity|]. now rewrite IH. Qed.

Lemma xbasename_is_sshd : forall argv0,
  xbasename argv0 = "sshd"
  <-> argv0 = "sshd" \/ exists dir, argv0 = dir ++ "/sshd".
Proof.
  intros argv0. split.
  - intros E. destruct (xbasename_suffix argv0) as [dir [Hd Hdir]].
    rewrite E in Hd. destruct Hdir as [->|[d ->]].
    + now left.
    + right. exists d. rewrite Hd. now rewrite append_assoc.
  - intros [->|[dir ->]]; [reflexivity|].
    now apply (xbasename_dir_name dir "sshd").
Qed.

(** ** The scan of the environment *)

Lemma scan_env_count : forall ep safe orig n safe' orig' n',
  scan_env ep safe orig n = ScanDone safe' orig' n' -> n' = n + List.length ep.
Proof.
  induction ep as [|env ep IH]; intros safe orig n safe' orig' n' H;
    cbn [scan_env] in H; cbn [List.length].
  - inversion H. lia.
  - destruct (advance_safe_mode env) as [v|].
    + destruct ((v =? "0") || (v =? "NO")).
      * apply IH in H. lia.
      * destruct ((v =? "1") || (v =? "YES")); [|discriminate].
        apply IH in H. lia.
    + destruct (advance env DYLD_INSERT_LIBRARIES_eq);
        apply IH in H; lia.
Qed.

Lemma last_cons_default : forall (l : list string) v d, last (v :: l) d = last l v.
Proof.
  induction l as [|x l IH]; intros v d; [reflexivity|].
  change (last (v :: x :: l) d) with (last (x :: l) d).
  rewrite (IH x d), (IH x v). reflexivity.
Qed.

Lemma scan_env_orig : forall ep safe orig n safe' orig' n',
  scan_env ep safe orig n = ScanDone safe' orig' n' ->
  orig' = last (dyld_insert_values ep) orig.
Proof.
  induction ep as [|env ep IH]; intros safe orig n safe' orig' n' H;
    cbn [scan_env] in H; cbn [dyld_insert_values].
  - inversion H. reflexivity.
  - destruct (advance_safe_mode env) as [v|] eqn:Es.
    + rewrite (safe_mode_not_dyld_insert _ _ Es).
      destruct ((v =? "0") || (v =? "NO")).
      * eapply IH; eauto.
      * destruct ((v =? "1") || (v =? "YES")); [|discriminate]. eapply IH; eauto.
    + destruct (advance env DYLD_INSERT_LIBRARIES_eq) as [v|].
      * rewrite last_cons_default. eapply IH; eauto.
      * eapply IH; eauto.
Qed.

Lemma scan_env_safe : forall ep safe orig n,
  match scan_env ep safe orig n with
  | ScanSkip => existsb value_invalid (safe_mode_values ep) = true
  | ScanDone safe' _ _ =>
      existsb value_invalid (safe_mode_values ep) = false /\
      safe' = safe || existsb value_enables (safe_mode_values ep)
  end.
Proof.
  induction ep as [|env ep IH]; intros safe orig n;
    cbn [scan_env safe_mode_values].
  - split; [reflexivity|]. cbn [existsb]. now rewrite orb_false_r.
  - destruct (advance_safe_mode env) as [v|] eqn:Es; cbn [existsb].
    + unfold value_invalid at 1 3, value_enables at 1, classify_safe_value.
      destruct ((v =? "0") || (v =? "NO")); cbn [orb].
      * apply IH.
      * destruct ((v =? "1") || (v =? "YES")); cbn [orb]; [|reflexivity].
        specialize (IH true orig (S n)).
        destruct (scan_env ep true orig (S n)); [exact IH|].
        destruct IH as [-> ->]. split; [reflexivity|].
        now rewrite orb_true_r.
    + destruct (advance env DYLD_INSERT_LIBRARIES_eq); apply IH.
Qed.

(** ** The rebuild loop *)

Lemma upto_colon_split : forall p,
  split_colons p =
  fst (upto_colon p) ::
    match snd (upto_colon p) with
    | None => []
    | Some rest => split_colons rest
    end.
Proof.
  induction p as [|c p IH]; simpl; [reflexivity|].
  destruct (Ascii.eqb c ":"); simpl; [reflexivity|].
  rewrite IH. destruct (upto_colon p) as [piece next]. reflexivity.
Qed.

Lemma upto_colon_shorter : forall p piece rest,
  upto_colon p = (piece, Some rest) -> String.length rest < String.length p.
Proof.
  induction p as [|c p IH]; intros piece rest H; simpl in H; [discriminate|].
  destruct (Ascii.eqb c ":").
  - inversion H. simpl. lia.
  - destruct (upto_colon p) as [pc nx] eqn:E. inversion H. subst.
    specialize (IH _ _ eq_refl). simpl. lia.
Qed.

Lemma upto_colon_whole : forall p piece,
  upto_colon p = (piece, None) -> piece = p.
Proof.
  induction p as [|c p IH]; intros piece H; simpl in H.
  - congruence.
  - destruct (Ascii.eqb c ":"); [discriminate|].
    destruct (upto_colon p) as [pc nx] eqn:E. inversion H. subst.
    f_equal. now apply IH.
Qed.

Lemma split_colons_nonempty : forall s, split_colons s <> [].
Proof.
  destruct s as [|c s]; simpl; [discriminate|].
  destruct (Ascii.eqb c ":"); [discriminate|].
  destruct (split_colons s); discriminate.
Qed.

Lemma drop_trailing_empty_cons : forall x l,
  l <> [] -> drop_trailing_empty (x :: l) = x :: drop_trailing_empty l.
Proof.
  intros x [|y l] H; [congruence|]. destruct x; reflexivity.
Qed.

Lemma dil_elements_step : forall p,
  p <> "" ->
  dil_elements p =
  fst (upto_colon p) ::
    match snd (upto_colon p) with
    | None => []
    | Some rest => dil_elements rest
    end.
Proof.
  intros p Hp. unfold dil_elements. rewrite upto_colon_split.
  destruct (upto_colon p) as [piece next] eqn:E. simpl.
  destruct next as [rest|].
  - apply drop_trailing_empty_cons, split_colons_nonempty.
  - apply upto_colon_whole in E. subst piece.
    destruct p; [congruence|reflexivity].
Qed.

(** The loop visits the elements of the value in order; fuel beyond the
    length of the value changes nothing. *)
Lemma dil_loop_fold : forall fuel p newv,
  String.length p < fuel ->
  dil_loop fuel p newv = fold_left keep_piece (dil_elements p) newv.
Proof.
  induction fuel as [|fuel IH]; intros p newv Hf; [lia|].
  destruct p as [|c p']; [reflexivity|].
  set (p := String c p') in *.
  rewrite (dil_elements_step p) by discriminate.
  change (dil_loop (S fuel) p newv) with
    (let '(piece, next) := upto_colon p in
     let newv' := if is_substitute piece then newv else append_piece newv piece in
     match next with None => newv' | Some rest => dil_loop fuel rest newv' end).
  destruct (upto_colon p) as [piece next] eqn:E. simpl fst. simpl snd.
  destruct next as [rest|]; simpl.
  - apply upto_colon_shorter in E. rewrite IH by lia. reflexivity.
  - reflexivity.
Qed.

Lemma dil_loop_fuel : forall fuel p newv,
  String.length p < fuel ->
  dil_loop fuel p newv = dil_loop (S (String.length p)) p newv.
Proof.
  intros. rewrite !dil_loop_fold by lia. reflexivity.
Qed.

Lemma fold_keep_filter : forall l newv,
  fold_left keep_piece l newv =
  fold_left append_piece (filter (fun e => negb (is_substitute e)) l) newv.
Proof.
  induction l as [|x l IH]; intros newv; cbn [fold_left filter]; [reflexivity|].
  unfold keep_piece at 2. destruct (is_substitute x); cbn [negb fold_left]; apply IH.
Qed.

Lemma join_cons2 : forall a b l,
  join_colons (a :: b :: l) = a ++ ":" ++ join_colons (b :: l).
Proof. reflexivity. Qed.

Lemma join_merge_head : forall a b l,
  join_colons ((a ++ ":" ++ b) :: l) = join_colons (a :: b :: l).
Proof.
  intros a b [|c l].
  - reflexivity.
  - rewrite (join_cons2 a b), !join_cons2. now rewrite !append_assoc.
Qed.

Lemma fold_append_piece : forall l newv,
  fold_left append_piece l newv =
  match newv with
  | EmptyString => join_colons (drop_leading_empty l)
  | _ => join_colons (newv :: l)
  end.
Proof.
  induction l as [|x l IH]; intros newv; cbn [fold_left].
  - destruct newv; reflexivity.
  - rewrite IH. destruct newv as [|c newv].
    + cbn [append_piece]. destruct x; reflexivity.
    + cbn [append_piece].
      change (String c newv ++ ":" ++ x) with (String c (newv ++ ":" ++ x)).
      cbv iota. change (String c (newv ++ ":" ++ x)) with (String c newv ++ ":" ++ x).
      apply join_merge_head.
Qed.

Lemma fold_left_snoc : forall (l : list string) newv x,
  append_piece (fold_left append_piece l newv) x =
  fold_left append_piece (l ++ [x])%list newv.
Proof. intros. now rewrite fold_left_app. Qed.

(** The value the code writes is the merged value of the specification. *)
Lemma rebuilt_value_merged : forall safe dylib orig,
  rebuilt_value safe dylib orig = merged_value safe dylib orig.
Proof.
  intros safe dylib orig. unfold rebuilt_value, merged_value.
  rewrite dil_loop_fold by lia. rewrite fold_keep_filter.
  destruct safe.
  - rewrite app_nil_r. now rewrite fold_append_piece.
  - rewrite fold_left_snoc. now rewrite fold_append_piece.
Qed.

Lemma rebuilt_new_entry : forall safe dylib orig,
  match rebuilt_new safe dylib orig with Some s => [s] | None => [] end =
  rebuilt_entry (merged_value safe dylib orig).
Proof.
  intros. unfold rebuilt_new, rebuilt_entry. rewrite rebuilt_value_merged.
  destruct (merged_value safe dylib orig); reflexivity.
Qed.

Lemma scan_verdict_spec : forall envp,
  scan_verdict envp =
  if existsb value_invalid (safe_mode_values envp) then SafeInvalid
  else if existsb value_enables (safe_mode_values envp) then SafeEnabled
  else SafeDisabled.
Proof.
  intros envp. unfold scan_verdict.
  pose proof (scan_env_safe envp false "" 0) as H.
  destruct (scan_env envp false "" 0) as [|safe orig n].
  - now rewrite H.
  - destruct H as [-> ->]. cbn [orb].
    destruct (existsb value_enables (safe_mode_values envp)); reflexivity.
Qed.

(** The whole rewriter, in closed form. *)
Lemma rewrite_env_closed_form : forall dylib my_envp,
  rewrite_env dylib my_envp =
  match scan_verdict my_envp with
  | SafeInvalid => RewriteSkip
  | SafeEnabled => Rewritten true (spec_env_last true dylib my_envp)
  | SafeDisabled => Rewritten false (spec_env_last false dylib my_envp)
  end.
Proof.
  intros dylib my_envp. unfold rewrite_env, scan_verdict.
  destruct (scan_env my_envp false "" 0) as [|safe orig n] eqn:E; [reflexivity|].
  pose proof (scan_env_count _ _ _ _ _ _ _ E) as Hn.
  pose proof (scan_env_orig _ _ _ _ _ _ _ E) as Ho.
  assert (build_envp my_envp n (rebuilt_new safe dylib orig)
          = spec_env_last safe dylib my_envp) as ->.
  { unfold build_envp, spec_env_last, other_entries, last_dyld_insert.
    rewrite rebuilt_new_entry, Hn, Ho. cbn [Nat.add]. now rewrite firstn_all. }
  destruct safe; reflexivity.
Qed.

(** ** The shape of a rewritten environment *)

Lemma dyld_insert_values_app : forall l1 l2,
  dyld_insert_values (l1 ++ l2)%list =
  (dyld_insert_values l1 ++ dyld_insert_values l2)%list.
Proof.
  induction l1 as [|env l1 IH]; intros l2; cbn [dyld_insert_values app]; [reflexivity|].
  destruct (advance env DYLD_INSERT_LIBRARIES_eq); rewrite IH; reflexivity.
Qed.

Lemma dyld_insert_values_other : forall envp,
  dyld_insert_values (other_entries envp) = [].
Proof.
  induction envp as [|env envp IH]; [reflexivity|].
  unfold other_entries in *. cbn [filter]. unfold is_dyld_insert at 1.
  destruct (advance env DYLD_INSERT_LIBRARIES_eq) eqn:E; cbn [negb]; [exact IH|].
  cbn [dyld_insert_values]. now rewrite E.
Qed.

Lemma dyld_insert_values_entry : forall v,
  dyld_insert_values (rebuilt_entry v) = nonempty_value v.
Proof.
  intros [|c v]; [reflexivity|].
  unfold rebuilt_entry. cbn [dyld_insert_values]. now rewrite advance_append.
Qed.

Lemma dyld_insert_values_rewritten : forall envp v,
  dyld_insert_values (other_entries envp ++ rebuilt_entry v)%list = nonempty_value v.
Proof.
  intros. now rewrite dyld_insert_values_app, dyld_insert_values_other,
    dyld_insert_values_entry.
Qed.

Lemma other_entries_app : forall l1 l2,
  other_entries (l1 ++ l2)%list = (other_entries l1 ++ other_entries l2)%list.
Proof. intros. apply filter_app. Qed.

Lemma other_entries_idem : forall envp,
  other_entries (other_entries envp) = other_entries envp.
Proof.
  induction envp as [|env envp IH]; [reflexivity|].
  unfold other_entries in *. cbn [filter].
  destruct (negb (is_dyld_insert env)) eqn:E; [|exact IH].
  cbn [filter]. rewrite E. now f_equal.
Qed.

Lemma other_entries_entry : forall v, other_entries (rebuilt_entry v) = [].
Proof.
  intros [|c v]; [reflexivity|].
  unfold rebuilt_entry, other_entries. cbn [filter]. unfold is_dyld_insert.
  now rewrite advance_append.
Qed.

Lemma other_entries_rewritten : forall envp v,
  other_entries (other_entries envp ++ rebuilt_entry v)%list = other_entries envp.
Proof.
  intros. rewrite other_entries_app, other_entries_idem, other_entries_entry.
  apply app_nil_r.
Qed.

Lemma safe_mode_values_app : forall l1 l2,
  safe_mode_values (l1 ++ l2)%list = (safe_mode_values l1 ++ safe_mode_values l2)%list.
Proof.
  induction l1 as [|env l1 IH]; intros l2; cbn [safe_mode_values app]; [reflexivity|].
  destruct (advance_safe_mode env); rewrite IH; reflexivity.
Qed.

Lemma safe_mode_values_other : forall envp,
  safe_mode_values (other_entries envp) = safe_mode_values envp.
Proof.
  induction envp as [|env envp IH]; [reflexivity|].
  unfold other_entries in *. cbn [filter safe_mode_values]. unfold is_dyld_insert at 1.
  destruct (advance env DYLD_INSERT_LIBRARIES_eq) eqn:E; cbn [negb].
  - now rewrite (dyld_insert_not_safe_mode _ _ E).
  - cbn [safe_mode_values]. destruct (advance_safe_mode env); now rewrite IH.
Qed.

Lemma safe_mode_values_entry : forall v, safe_mode_values (rebuilt_entry v) = [].
Proof.
  intros [|c v]; [reflexivity|].
  unfold rebuilt_entry. cbn [safe_mode_values].
  now rewrite (dyld_insert_not_safe_mode _ _ (advance_append _ _)).
Qed.

Lemma safe_mode_values_rewritten : forall envp v,
  safe_mode_values (other_entries envp ++ rebuilt_entry v)%list = safe_mode_values envp.
Proof.
  intros. rewrite safe_mode_values_app, safe_mode_values_other, safe_mode_values_entry.
  apply app_nil_r.
Qed.

(** ** Cutting and joining at colons *)

Lemma split_colon_free : forall x, colon_free x = true -> split_colons x = [x].
Proof.
  induction x as [|c x IH]; cbn [colon_free split_colons]; intros H; [reflexivity|].
  apply andb_true_iff in H as [Hc Hx]. apply negb_true_iff in Hc. rewrite Hc.
  now rewrite (IH Hx).
Qed.

Lemma split_append_colon : forall x s,
  colon_free x = true -> split_colons (x ++ ":" ++ s) = x :: split_colons s.
Proof.
  induction x as [|c x IH]; intros s H.
  - reflexivity.
  - cbn [colon_free] in H. apply andb_true_iff in H as [Hc Hx].
    apply negb_true_iff in Hc.
    change (String c x ++ ":" ++ s) with (String c (x ++ ":" ++ s)).
    cbn [split_colons]. rewrite Hc. now rewrite (IH s Hx).
Qed.

Lemma split_join : forall l,
  l <> [] -> Forall (fun x => colon_free x = true) l ->
  split_colons (join_colons l) = l.
Proof.
  induction l as [|x l IH]; intros Hne Hall; [congruence|].
  inversion Hall as [|? ? Hx Hl]; subst.
  destruct l as [|y l].
  - now apply split_colon_free.
  - rewrite join_cons2, split_append_colon by assumption.
    f_equal. apply IH; [discriminate|assumption].
Qed.

Lemma split_colons_colon_free : forall s,
  Forall (fun x => colon_free x = true) (split_colons s).
Proof.
  induction s as [|c s IH]; cbn [split_colons].
  - repeat constructor.
  - destruct (Ascii.eqb c ":") eqn:Hc.
    + constructor; [reflexivity|assumption].
    + destruct (split_colons s) as [|x xs].
      * constructor; [|constructor]. cbn [colon_free]. now rewrite Hc.
      * inversion IH; subst. constructor; [|assumption].
        cbn [colon_free]. rewrite Hc. assumption.
Qed.

Lemma Forall_drop_trailing_empty : forall (P : string -> Prop) l,
  Forall P l -> Forall P (drop_trailing_empty l).
Proof.
  induction l as [|x l IH]; intros H; [constructor|].
  inversion H; subst. cbn [drop_trailing_empty].
  destruct x, l; try constructor; auto.
Qed.

Lemma Forall_drop_leading_empty : forall (P : string -> Prop) l,
  Forall P l -> Forall P (drop_leading_empty l).
Proof.
  induction l as [|x l IH]; intros H; [constructor|].
  inversion H; subst. destruct x; cbn [drop_leading_empty]; auto.
Qed.

Lemma dil_elements_colon_free : forall v,
  Forall (fun x => colon_free x = true) (dil_elements v).
Proof.
  intros. apply Forall_drop_trailing_empty, split_colons_colon_free.
Qed.

Lemma Forall_filter : forall (P : string -> Prop) f l,
  Forall P l -> Forall P (filter f l).
Proof.
  induction l as [|x l IH]; intros H; [constructor|].
  inversion H; subst. cbn [filter]. destruct (f x); auto.
Qed.

Lemma drop_leading_snoc : forall l x,
  x <> "" -> drop_leading_empty (l ++ [x])%list = (drop_leading_empty l ++ [x])%list.
Proof.
  induction l as [|y l IH]; intros x Hx.
  - destruct x; [congruence|reflexivity].
  - destruct y; cbn [app drop_leading_empty]; [now apply IH|reflexivity].
Qed.

Lemma drop_leading_idem : forall l,
  drop_leading_empty (drop_leading_empty l) = drop_leading_empty l.
Proof.
  induction l as [|y l IH]; [reflexivity|].
  destruct y; cbn [drop_leading_empty]; [exact IH|reflexivity].
Qed.

Lemma drop_trailing_snoc : forall l x,
  x <> "" -> drop_trailing_empty (l ++ [x])%list = (l ++ [x])%list.
Proof.
  induction l as [|y l IH]; intros x Hx.
  - destruct x; [congruence|reflexivity].
  - cbn [app]. rewrite drop_trailing_empty_cons by (destruct l; discriminate).
    now rewrite IH.
Qed.

Lemma filter_kept : forall l,
  Forall (fun e => is_substitute e = false)
         (filter (fun e => negb (is_substitute e)) l).
Proof.
  induction l as [|x l IH]; cbn [filter]; [constructor|].
  destruct (is_substitute x) eqn:E; cbn [negb]; [assumption|].
  constructor; assumption.
Qed.

Lemma filter_all_kept : forall l,
  Forall (fun e => is_substitute e = false) l ->
  filter (fun e => negb (is_substitute e)) l = l.
Proof.
  induction l as [|x l IH]; intros H; [reflexivity|].
  inversion H as [|? ? Hx Hl]; subst. cbn [filter]. rewrite Hx. cbn [negb].
  now rewrite IH.
Qed.

Lemma is_substitute_inv : forall L,
  is_substitute L = true -> L = bl_dylib \/ L = psh_dylib.
Proof.
  intros L H. unfold is_substitute in H. apply orb_true_iff in H as [H|H];
    apply String.eqb_eq in H; auto.
Qed.

Lemma join_nil_inv : forall l, join_colons l = "" -> l = [] \/ l = [""].
Proof.
  intros [|x [|y l]] H; auto.
  - right. cbn in H. now subst.
  - rewrite join_cons2 in H. apply append_eq_empty in H as [_ H]. discriminate.
Qed.

(** Elements of a value rebuilt in safe mode: no companion is among them. *)
Lemma merged_safe_elements : forall dylib orig,
  Forall (fun e => is_substitute e = false)
         (split_colons (merged_value true dylib orig)).
Proof.
  intros dylib orig. unfold merged_value. rewrite app_nil_r.
  set (l := drop_leading_empty _).
  assert (Hk : Forall (fun e => is_substitute e = false) l)
    by apply Forall_drop_leading_empty, filter_kept.
  assert (Hc : Forall (fun x => colon_free x = true) l)
    by apply Forall_drop_leading_empty, Forall_filter, dil_elements_colon_free.
  destruct l as [|x l'] eqn:El.
  - repeat constructor.
  - rewrite split_join; [assumption|discriminate|assumption].
Qed.

(** Rebuilding a value that was rebuilt with a companion appended gives it back. *)
Lemma merged_value_fixed : forall L orig,
  is_substitute L = true ->
  merged_value false L (merged_value false L orig) = merged_value false L orig.
Proof.
  intros L orig HL.
  assert (HLne : L <> "") by (apply is_substitute_inv in HL as [->| ->]; discriminate).
  assert (HLc : colon_free L = true)
    by (apply is_substitute_inv in HL as [->| ->]; reflexivity).
  unfold merged_value at 2 3.
  set (kept := filter (fun e => negb (is_substitute e)) (dil_elements orig)).
  rewrite (drop_leading_snoc kept L HLne).
  set (k' := drop_leading_empty kept).
  assert (Hk : Forall (fun e => is_substitute e = false) k')
    by apply Forall_drop_leading_empty, filter_kept.
  assert (Hc : Forall (fun x => colon_free x = true) (k' ++ [L])%list).
  { apply Forall_app. split.
    - apply Forall_drop_leading_empty, Forall_filter, dil_elements_colon_free.
    - repeat constructor. assumption. }
  unfold merged_value, dil_elements.
  rewrite split_join; [|destruct k'; discriminate|assumption].
  rewrite drop_trailing_snoc by assumption.
  rewrite filter_app, (filter_all_kept k' Hk). cbn [filter]. rewrite HL. cbn [negb].
  rewrite app_nil_r, drop_leading_snoc by assumption.
  unfold k'. now rewrite drop_leading_idem.
Qed.

Lemma last_values_rewritten : forall envp v,
  last_dyld_insert (other_entries envp ++ rebuilt_entry v)%list = v.
Proof.
  intros. unfold last_dyld_insert. rewrite dyld_insert_values_rewritten.
  destruct v; reflexivity.
Qed.

Lemma scan_verdict_rewritten : forall envp v,
  scan_verdict (other_entries envp ++ rebuilt_entry v)%list = scan_verdict envp.
Proof.
  intros. rewrite !scan_verdict_spec. now rewrite safe_mode_values_rewritten.
Qed.

(** A rewrite that appended a companion is a fixed point of the rewriter. *)
Lemma rewrite_env_fixed_point : forall L E E1,
  is_substitute L = true ->
  rewrite_env L E = Rewritten false E1 ->
  rewrite_env L E1 = Rewritten false E1.
Proof.
  intros L E E1 HL H. rewrite rewrite_env_closed_form in H.
  destruct (scan_verdict E) eqn:Ev; try discriminate.
  inversion H as [HE1]. clear H.
  rewrite rewrite_env_closed_form.
  assert (Hv : scan_verdict (spec_env_last false L E) = SafeDisabled)
    by (unfold spec_env_last; now rewrite scan_verdict_rewritten).
  rewrite Hv. f_equal.
  unfold spec_env_last.
  rewrite other_entries_rewritten, last_values_rewritten.
  rewrite merged_value_fixed by assumption. reflexivity.
Qed.

Lemma merged_value_ends_with_library : forall lib orig,
  is_substitute lib = true ->
  exists others,
    split_colons (merged_value false lib orig) = (others ++ [lib])%list
    /\ Forall (fun e => e <> bl_dylib /\ e <> psh_dylib) others.
Proof.
  intros lib orig Hlib.
  assert (HLne : lib <> EmptyString)
    by (apply is_substitute_inv in Hlib as [->| ->]; discriminate).
  assert (HLc : colon_free lib = true)
    by (apply is_substitute_inv in Hlib as [->| ->]; reflexivity).
  unfold merged_value.
  rewrite (drop_leading_snoc _ lib HLne).
  set (others := drop_leading_empty _).
  exists others. split.
  - apply split_join.
    + destruct others; discriminate.
    + apply Forall_app. split.
      * apply Forall_drop_leading_empty, Forall_filter, dil_elements_colon_free.
      * repeat constructor. exact HLc.
  - assert (Hk : Forall (fun e => is_substitute e = false) others)
      by apply Forall_drop_leading_empty, filter_kept.
    rewrite Forall_forall in *. intros e He. specialize (Hk e He).
    unfold is_substitute in Hk. apply orb_false_iff in Hk as [H1 H2].
    split; now apply String.eqb_neq.
Qed.

Lemma merged_value_nonempty : forall lib orig,
  is_substitute lib = true ->
  nonempty_value (merged_value false lib orig) = [merged_value false lib orig].
Proof.
  intros lib orig Hlib.
  destruct (merged_value_ends_with_library lib orig Hlib) as [others [Hs _]].
  destruct (merged_value false lib orig) eqn:E; [|reflexivity].
  exfalso. cbn in Hs.
  destruct others as [|x [|y others]]; cbn in Hs; inversion Hs.
  subst lib. discriminate Hlib.
Qed.

(** *** Rewriting in safe mode *)

Lemma join_snoc : forall l x,
  l <> [] -> join_colons (l ++ [x])%list = join_colons l ++ ":" ++ x.
Proof.
  induction l as [|a l IH]; intros x Hne; [congruence|].
  destruct l as [|b l]; [reflexivity|].
  change ((a :: b :: l) ++ [x])%list with (a :: b :: (l ++ [x]))%list.
  rewrite !join_cons2.
  change (b :: (l ++ [x]))%list with ((b :: l) ++ [x])%list.
  rewrite IH by discriminate. now rewrite !append_assoc.
Qed.

Lemma ends_in_colon_append : forall a b,
  b <> "" -> ends_in_colon (a ++ b) = ends_in_colon b.
Proof.
  induction a as [|c a IH]; intros b Hb; [reflexivity|].
  cbn [append ends_in_colon].
  destruct (a ++ b) eqn:E.
  - apply append_eq_empty in E as [_ E]. congruence.
  - rewrite <- E. now apply IH.
Qed.

Lemma ends_in_colon_colon_free : forall x,
  colon_free x = true -> ends_in_colon x = false.
Proof.
  induction x as [|c x IH]; intros H; [reflexivity|].
  cbn [colon_free] in H. apply andb_true_iff in H as [Hc Hx].
  apply negb_true_iff in Hc.
  cbn [ends_in_colon]. destruct x; [exact Hc|now apply IH].
Qed.

(** What the loop leaves out at the end of a value. *)
Lemma drop_trailing_empty_cases : forall l,
  (drop_trailing_empty l = l /\ (l = [] \/ exists l' x, l = (l' ++ [x])%list /\ x <> ""))
  \/ (l = (drop_trailing_empty l ++ [""])%list).
Proof.
  induction l as [|a l IH]; [left; auto|].
  destruct l as [|b l].
  - destruct a.
    + right. reflexivity.
    + left. split; [reflexivity|]. right. exists [], (String a a0).
      split; [reflexivity|discriminate].
  - rewrite drop_trailing_empty_cons by discriminate.
    destruct IH as [[Heq [Hn|[l' [x [Hl Hx]]]]]|Hr].
    + discriminate.
    + left. rewrite Heq. split; [reflexivity|]. right.
      exists (a :: l'), x. split; [|exact Hx]. cbn [app]. now rewrite <- Hl.
    + right. cbn [app]. now rewrite <- Hr.
Qed.

Lemma drop_leading_empty_head : forall l t,
  drop_leading_empty l <> ("" :: t)%list.
Proof.
  induction l as [|a l IH]; intros t; [discriminate|].
  destruct a; cbn [drop_leading_empty]; [apply IH|discriminate].
Qed.

Lemma drop_leading_fixed : forall l,
  (forall t, l <> ("" :: t)%list) -> drop_leading_empty l = l.
Proof.
  intros [|a l] H; [reflexivity|].
  destruct a; [now destruct (H l)|reflexivity].
Qed.

Lemma join_safe_again : forall L l1,
  Forall (fun e => is_substitute e = false) l1 ->
  Forall (fun x => colon_free x = true) l1 ->
  (forall t, l1 <> ("" :: t)%list) ->
  (ends_in_colon (join_colons l1) = false
   /\ merged_value true L (join_colons l1) = join_colons l1)
  \/ (ends_in_colon (join_colons l1) = true
      /\ join_colons l1 = merged_value true L (join_colons l1) ++ ":").
Proof.
  intros L l1 Hk Hc Hh.
  unfold merged_value, dil_elements. rewrite app_nil_r.
  destruct l1 as [|a l] eqn:El; [left; split; reflexivity|].
  rewrite <- El in *.
  rewrite split_join by (subst; first [discriminate|assumption]).
  destruct (drop_trailing_empty_cases l1) as [[Heq [Hn|[l' [x [Hl Hx]]]]]|Hr].
  - congruence.
  - left. rewrite Heq, (filter_all_kept l1 Hk), (drop_leading_fixed l1 Hh).
    split; [|reflexivity].
    rewrite Hl. rewrite Hl in Hc. apply Forall_app in Hc as [_ Hc].
    inversion Hc as [|? ? Hxc _]; subst x0 l0.
    destruct l' as [|b l'].
    + now apply ends_in_colon_colon_free.
    + rewrite join_snoc by discriminate.
      rewrite ends_in_colon_append by discriminate.
      change (":" ++ x) with (String ":" x).
      cbn [ends_in_colon].
      destruct x as [|c x]; [congruence|].
      now apply (ends_in_colon_colon_free (String c x)).
  - right.
    set (l0 := drop_trailing_empty l1) in *.
    assert (Hne : l0 <> []).
    { intros E. rewrite E in Hr. cbn in Hr. now apply (Hh []). }
    assert (Hk0 : Forall (fun e => is_substitute e = false) l0).
    { rewrite Hr in Hk. now apply Forall_app in Hk as [Hk _]. }
    assert (Hh0 : forall t, l0 <> ("" :: t)%list).
    { intros t E. rewrite E in Hr. cbn in Hr. now apply (Hh (t ++ [""])%list). }
    rewrite (filter_all_kept l0 Hk0), (drop_leading_fixed l0 Hh0).
    rewrite Hr at 1 2. rewrite join_snoc by assumption.
    split; [|reflexivity].
    now rewrite ends_in_colon_append by discriminate.
Qed.

(** A value rebuilt in safe mode and rebuilt again: the colon in front of
    a last, empty element goes, and nothing else changes. *)
Lemma merged_safe_again : forall L orig,
  (ends_in_colon (merged_value true L orig) = false
   /\ merged_value true L (merged_value true L orig) = merged_value true L orig)
  \/ (ends_in_colon (merged_value true L orig) = true
      /\ merged_value true L orig
         = merged_value true L (merged_value true L orig) ++ ":").
Proof.
  intros L orig.
  assert (Hm : merged_value true L orig
               = join_colons
                   (drop_leading_empty
                      (filter (fun e => negb (is_substitute e)) (dil_elements orig))))
    by (unfold merged_value; now rewrite app_nil_r).
  rewrite Hm. apply join_safe_again.
  - apply Forall_drop_leading_empty, filter_kept.
  - apply Forall_drop_leading_empty, Forall_filter, dil_elements_colon_free.
  - apply drop_leading_empty_head.
Qed.

Lemma ends_in_colon_join : forall l,
  Forall (fun x => colon_free x = true) l ->
  ends_in_colon (join_colons l) = true -> In "" l.
Proof.
  induction l as [|x l IH]; intros Hc H; [discriminate|].
  inversion Hc as [|? ? Hx Hl]; subst.
  destruct l as [|y l].
  - change (join_colons [x]) with x in H.
    rewrite (ends_in_colon_colon_free x Hx) in H. discriminate.
  - right. rewrite join_cons2 in H.
    rewrite ends_in_colon_append in H by discriminate.
    change (":" ++ join_colons (y :: l)) with (String ":" (join_colons (y :: l))) in H.
    cbn [ends_in_colon] in H.
    destruct (join_colons (y :: l)) eqn:Ej.
    + apply join_nil_inv in Ej as [Ej|Ej]; [discriminate|].
      rewrite Ej. now left.
    + apply IH; assumption.
Qed.

Lemma In_drop_leading_empty : forall (e : string) l,
  In e (drop_leading_empty l) -> In e l.
Proof.
  induction l as [|x l IH]; intros H; [exact H|].
  destruct x; cbn [drop_leading_empty] in H; [right; now apply IH|exact H].
Qed.

(** A value without an empty element keeps its shape in safe mode. *)
Lemma merged_safe_no_empty : forall L orig,
  (forall e, In e (dil_elements orig) -> e <> "") ->
  ends_in_colon (merged_value true L orig) = false.
Proof.
  intros L orig Hne.
  destruct (ends_in_colon (merged_value true L orig)) eqn:E; [|reflexivity].
  exfalso. unfold merged_value in E. rewrite app_nil_r in E.
  apply ends_in_colon_join in E.
  - apply In_drop_leading_empty, filter_In in E as [E _].
    now apply (Hne "").
  - apply Forall_drop_leading_empty, Forall_filter, dil_elements_colon_free.
Qed.

Lemma value_if_any_inj : forall a b, value_if_any a = value_if_any b -> a = b.
Proof.
  intros [|c a] [|d b] H; cbn in H; try discriminate; [reflexivity|].
  now inversion H.
Qed.

Lemma dyld_insert_of_rewritten : forall envp v,
  dyld_insert_of (other_entries envp ++ rebuilt_entry v)%list = value_if_any v.
Proof.
  intros. unfold dyld_insert_of. rewrite dyld_insert_values_rewritten.
  destruct v; reflexivity.
Qed.

Lemma rebuilt_entry_inj : forall a b, rebuilt_entry a = rebuilt_entry b -> a = b.
Proof.
  intros a b H.
  apply (f_equal (fun l => dyld_insert_of (other_entries [] ++ l)%list)) in H.
  rewrite !dyld_insert_of_rewritten in H. now apply value_if_any_inj.
Qed.

Open Scope Z_scope.

(** ** Byte order *)

Lemma u8_range : forall b, 0 <= u8 b < 256.
Proof.
  intros b. unfold u8. pose proof (Byte.to_N_bounded b). lia.
Qed.

Lemma u8_testbit_high : forall b n, 8 <= n -> Z.testbit (u8 b) n = false.
Proof.
  intros b n Hn. pose proof (u8_range b) as Hb.
  destruct (Z.eq_dec (u8 b) 0) as [->|Hz]; [apply Z.testbit_0_l|].
  apply Z.bits_above_log2; [lia|].
  assert (Z.log2 (u8 b) < 8) by (apply Z.log2_lt_pow2; lia). lia.
Qed.

Lemma testbit_255 : forall n, 0 <= n -> Z.testbit 255 n = (n <? 8).
Proof.
  intros n Hn. change 255 with (Z.ones 8). rewrite Z.testbit_ones by lia.
  destruct (Z.leb_spec 0 n); [reflexivity|lia].
Qed.

Lemma byte_of_word : forall b0 b1 b2 b3 i,
  0 <= i < 4 ->
  Z.land (Z.shiftr (le32 b0 b1 b2 b3) (8 * i)) 255 =
  u8 (if i =? 0 then b0 else if i =? 1 then b1 else if i =? 2 then b2 else b3).
Proof.
  intros b0 b1 b2 b3 i Hi. apply Z.bits_inj'. intros n Hn.
  rewrite Z.land_spec, Z.shiftr_spec, testbit_255 by lia.
  unfold le32. rewrite !Z.lor_spec, !Z.shiftl_spec by lia.
  destruct (Z.ltb_spec n 8) as [Hlt|Hge].
  - rewrite andb_true_r.
    assert (i = 0 \/ i = 1 \/ i = 2 \/ i = 3) as [ -> | [ -> | [ -> | -> ] ] ] by lia; cbn [Z.eqb Z.mul Pos.mul].
    + rewrite (Z.testbit_neg_r (u8 b1)), (Z.testbit_neg_r (u8 b2)),
        (Z.testbit_neg_r (u8 b3)) by lia.
      rewrite !orb_false_r. f_equal. lia.
    + rewrite (u8_testbit_high b0), (Z.testbit_neg_r (u8 b2)),
        (Z.testbit_neg_r (u8 b3)) by lia.
      rewrite !orb_false_r. cbn [orb]. f_equal. lia.
    + rewrite (u8_testbit_high b0), (u8_testbit_high b1),
        (Z.testbit_neg_r (u8 b3)) by lia.
      rewrite !orb_false_r. cbn [orb]. f_equal. lia.
    + rewrite (u8_testbit_high b0), (u8_testbit_high b1),
        (u8_testbit_high b2) by lia.
      cbn [orb]. f_equal. lia.
  - rewrite andb_false_r. symmetry. apply u8_testbit_high. lia.
Qed.

Lemma OSSwapInt32_le32 : forall b0 b1 b2 b3,
  OSSwapInt32 (le32 b0 b1 b2 b3) = be32 b0 b1 b2 b3.
Proof.
  intros. unfold OSSwapInt32.
  pose proof (byte_of_word b0 b1 b2 b3 0) as H0.
  pose proof (byte_of_word b0 b1 b2 b3 1) as H1.
  pose proof (byte_of_word b0 b1 b2 b3 2) as H2.
  pose proof (byte_of_word b0 b1 b2 b3 3) as H3.
  cbn [Z.eqb Z.mul Pos.mul] in H0, H1, H2, H3.
  rewrite Z.shiftr_0_r in H0.
  rewrite H0, H1, H2, H3 by lia. reflexivity.
Qed.

Lemma be32_le32_rev : forall b0 b1 b2 b3, be32 b0 b1 b2 b3 = le32 b3 b2 b1 b0.
Proof.
  intros. unfold be32, le32. apply Z.bits_inj'. intros n _.
  rewrite !Z.lor_spec.
  repeat match goal with
         | |- context [Z.testbit ?a n] => destruct (Z.testbit a n)
         end; reflexivity.
Qed.

Lemma OSSwapInt32_be32 : forall b0 b1 b2 b3,
  OSSwapInt32 (be32 b0 b1 b2 b3) = le32 b0 b1 b2 b3.
Proof.
  intros. rewrite be32_le32_rev, OSSwapInt32_le32. now rewrite be32_le32_rev.
Qed.

(** ** The inspector *)

Lemma field32_swap : forall u i, OSSwapInt32 (field32 u i) = be32_at u i.
Proof.
  intros u i. unfold field32, be32_at.
  destruct (skipn i u) as [|b0 [|b1 [|b2 [|b3 l]]]]; try reflexivity.
  apply OSSwapInt32_le32.
Qed.

Lemma be32_at_swap : forall u i, OSSwapInt32 (be32_at u i) = field32 u i.
Proof.
  intros u i. unfold field32, be32_at.
  destruct (skipn i u) as [|b0 [|b1 [|b2 [|b3 l]]]]; try reflexivity.
  apply OSSwapInt32_be32.
Qed.

Lemma field32_eqb_swapped : forall u i c c',
  OSSwapInt32 c = c' -> OSSwapInt32 c' = c ->
  (field32 u i =? c) = (be32_at u i =? c').
Proof.
  intros u i c c' H1 H2.
  destruct (Z.eqb_spec (field32 u i) c) as [E|E];
    destruct (Z.eqb_spec (be32_at u i) c') as [E'|E']; try reflexivity; exfalso.
  - apply E'. now rewrite <- field32_swap, E.
  - apply E. now rewrite <- be32_at_swap, E'.
Qed.

Lemma starts_with_spec : forall pat l,
  starts_with pat l = true <-> exists after, l = (pat ++ after)%list.
Proof.
  induction pat as [|p pat IH]; intros l; cbn [starts_with].
  - split; [intros _; now exists l|reflexivity].
  - destruct l as [|x l].
    + split; [discriminate|intros [after H]; discriminate].
    + rewrite andb_true_iff, IH. split.
      * intros [Hp [after ->]]. apply Byte.byte_dec_bl in Hp. subst.
        now exists after.
      * intros [after H]. inversion H; subst. split.
        -- now apply Byte.byte_dec_lb.
        -- now exists after.
Qed.

Lemma memmem_spec : forall little big,
  memmem big little = true <-> occurs little big.
Proof.
  intros little. induction big as [|x big IH]; cbn [memmem].
  - rewrite orb_false_r, starts_with_spec. split.
    + intros [after H]. exists [], after. exact H.
    + intros [[|b before] [after H]].
      * now exists after.
      * discriminate.
  - rewrite orb_true_iff, starts_with_spec, IH. split.
    + intros [[after H]|[before [after H]]].
      * exists [], after. exact H.
      * exists (x :: before), after. now rewrite H.
    + intros [[|b before] [after H]].
      * left. now exists after.
      * right. inversion H; subst. now exists before, after.
Qed.

(** The verdict in closed form. *)
Lemma restricted_closed_form : forall w filename,
  restricted w filename =
  match file_bytes w filename with
  | None => false
  | Some content =>
      match read_header content with
      | None => false
      | Some (offset, u) =>
          match classify_magic (u_magic u) with
          | None => false
          | Some (swap, is64) =>
              scan_load_commands content (malloc_ok w BlkCmdsBuf)
                (if swap then OSSwapInt32 (u_mh_sizeofcmds u) else u_mh_sizeofcmds u)
                ((offset + (if is64 then sizeof_mach_header_64 else sizeof_mach_header))
                   mod 2 ^ 32)
          end
      end
  end.
Proof.
  intros w filename. unfold restricted, run, looks_restricted.
  destruct (file_bytes w filename) as [content|]; [|reflexivity].
  destruct (read_header content) as [[offset u]|]; [|reflexivity].
  destruct (classify_magic (u_magic u)) as [[swap is64]|]; [|reflexivity].
  destruct (malloc_ok w BlkCmdsBuf); reflexivity.
Qed.

(** The inspector always returns, with the descriptor and the buffer released. *)
Lemma looks_restricted_returns : forall w filename tr,
  looks_restricted w filename tr =
  Returns (restricted w filename) (tr ++ inspector_trace w filename)%list.
Proof.
  intros w filename tr. unfold restricted, inspector_trace, run, looks_restricted.
  destruct (file_bytes w filename) as [content|];
    [|unfold ret; now rewrite app_nil_r].
  destruct (read_header content) as [[offset u]|];
    [|cbv [bind emit ret]; now rewrite <- !app_assoc].
  destruct (classify_magic (u_magic u)) as [[swap is64]|];
    [|cbv [bind emit ret]; now rewrite <- !app_assoc].
  destruct (malloc_ok w BlkCmdsBuf);
    cbv [bind emit ret free]; now rewrite <- !app_assoc.
Qed.

Lemma inspector_trace_cases : forall w filename,
  inspector_trace w filename = []
  \/ inspector_trace w filename = [Acquire InspectorFd; Release InspectorFd]
  \/ inspector_trace w filename =
     [Acquire InspectorFd; Acquire (Heap BlkCmdsBuf); Release (Heap BlkCmdsBuf);
      Release InspectorFd].
Proof.
  intros w filename. unfold inspector_trace, run, looks_restricted.
  destruct (file_bytes w filename) as [content|]; [|now left].
  destruct (read_header content) as [[offset u]|]; [|right; now left].
  destruct (classify_magic (u_magic u)) as [[swap is64]|]; [|right; now left].
  destruct (malloc_ok w BlkCmdsBuf); [right; now right|right; now left].
Qed.

Lemma of_nat_eqb_28 : forall n, (Z.of_nat n =? 28) = Nat.eqb n 28.
Proof.
  intros n. destruct (Z.eqb_spec (Z.of_nat n) 28) as [E|E];
    destruct (Nat.eqb_spec n 28) as [E'|E']; try reflexivity; lia.
Qed.

Lemma bytes_at_header : forall content offset,
  bytes_at content offset 28 =
  let u := pread content sizeof_u offset in
  if negb (Nat.eqb (List.length u) sizeof_u) then None else Some u.
Proof.
  intros. unfold bytes_at, pread, sizeof_u.
  change (Z.to_nat 28) with 28%nat. cbv zeta. rewrite of_nat_eqb_28.
  destruct (Nat.eqb _ 28); reflexivity.
Qed.

(** Lines 93-108 read the header the specification points at. *)
Lemma read_header_spec : forall content,
  read_header content =
  match spec_slice content with
  | None => None
  | Some offset =>
      match bytes_at content offset 28 with
      | None => None
      | Some u => Some (offset, u)
      end
  end.
Proof.
  intros content. unfold read_header, spec_slice.
  rewrite (bytes_at_header content 0). cbv zeta.
  destruct (negb (Nat.eqb (List.length (pread content sizeof_u 0)) sizeof_u)) eqn:E0;
    [reflexivity|].
  unfold ntohl, u_magic, u_fh_nfat_arch, u_fa1_offset.
  rewrite !field32_swap.
  rewrite (field32_eqb_swapped _ 4%nat 0 0 eq_refl eq_refl).
  destruct (be32_at (pread content sizeof_u 0) 0 =? FAT_MAGIC).
  - destruct (be32_at (pread content sizeof_u 0) 4 =? 0); [reflexivity|].
    rewrite bytes_at_header. cbv zeta.
    match goal with |- context [negb ?x] => destruct (negb x) end; reflexivity.
  - rewrite bytes_at_header. cbv zeta. now rewrite E0.
Qed.

(** The [switch] on the magic number and the size it leads to. *)
Lemma classify_magic_spec : forall u,
  match classify_magic (u_magic u) with
  | None => None
  | Some (swap, is64) =>
      Some (if is64 then sizeof_mach_header_64 else sizeof_mach_header,
            if swap then OSSwapInt32 (u_mh_sizeofcmds u) else u_mh_sizeofcmds u)
  end = spec_mach_header u.
Proof.
  intros u. unfold classify_magic, spec_mach_header, u_magic, u_mh_sizeofcmds, le32_at.
  rewrite field32_swap.
  rewrite (field32_eqb_swapped u 0%nat MH_CIGAM MH_MAGIC eq_refl eq_refl).
  rewrite (field32_eqb_swapped u 0%nat MH_CIGAM_64 MH_MAGIC_64 eq_refl eq_refl).
  destruct (field32 u 0 =? MH_MAGIC); [reflexivity|].
  destruct (field32 u 0 =? MH_MAGIC_64); [reflexivity|].
  destruct (be32_at u 0 =? MH_MAGIC); [reflexivity|].
  destruct (be32_at u 0 =? MH_MAGIC_64); reflexivity.
Qed.

Lemma field32_nonneg : forall u i, 0 <= field32 u i.
Proof.
  intros u i. unfold field32.
  destruct (skipn i u) as [|b0 [|b1 [|b2 [|b3 l]]]]; try lia.
  unfold le32. pose proof (u8_range b0). pose proof (u8_range b1).
  pose proof (u8_range b2). pose proof (u8_range b3).
  repeat (apply Z.lor_nonneg; split); try apply Z.shiftl_nonneg; lia.
Qed.

(** Lines 135-144 find the pattern in the bytes the specification reads. *)
Lemma scan_load_commands_spec : forall content buf_ok sizeofcmds offset,
  scan_load_commands content buf_ok sizeofcmds offset = true <->
  exists cmds,
    buf_ok = true /\ bytes_at content offset sizeofcmds = Some cmds
    /\ occurs sectname cmds.
Proof.
  intros content buf_ok sizeofcmds offset.
  unfold scan_load_commands, bytes_at, pread. cbv zeta.
  set (avail := firstn (Z.to_nat sizeofcmds) (skipn (Z.to_nat offset) content)).
  split.
  - intros H. destruct buf_ok.
    + assert ((Z.of_nat (List.length avail) <? 0) = false) as E0 by (apply Z.ltb_ge; lia).
      rewrite E0 in H. cbn [orb] in H.
      destruct (Z.of_nat (List.length avail) =? sizeofcmds); [|discriminate].
      exists avail. repeat split. now apply memmem_spec.
    + exfalso. destruct avail as [|b avail'] eqn:Ea.
      * cbn [orb Z.ltb Z.compare] in H.
        destruct (0 =? sizeofcmds); [|discriminate].
        cbn [negb] in H. discriminate.
      * discriminate.
  - intros [cmds [-> [Hb Ho]]].
    assert ((Z.of_nat (List.length avail) <? 0) = false) as E0 by (apply Z.ltb_ge; lia).
    rewrite E0. cbn [orb].
    destruct (Z.of_nat (List.length avail) =? sizeofcmds); [|discriminate].
    inversion Hb; subst. now apply memmem_spec.
Qed.

Open Scope Z_scope.
Open Scope hook_scope.

(** ** Running the hook *)

Lemma spawn_events_app : forall tr1 tr2,
  spawn_events (tr1 ++ tr2)%list = (spawn_events tr1 ++ spawn_events tr2)%list.
Proof.
  induction tr1 as [|e tr1 IH]; intros tr2; [reflexivity|].
  destruct e; cbn [app spawn_events]; rewrite IH; reflexivity.
Qed.

Lemma live_from_app : forall tr1 tr2 held,
  live_from held (tr1 ++ tr2)%list = live_from (live_from held tr1) tr2.
Proof.
  induction tr1 as [|e tr1 IH]; intros tr2 held; [reflexivity|].
  destruct e; cbn [app live_from]; apply IH.
Qed.

Lemma inspector_trace_quiet : forall w filename,
  spawn_events (inspector_trace w filename) = [].
Proof.
  intros. destruct (inspector_trace_cases w filename) as [-> | [-> | ->]];
    reflexivity.
Qed.

Lemma inspector_trace_balanced : forall w filename held,
  live_from held (inspector_trace w filename) = held.
Proof.
  intros. destruct (inspector_trace_cases w filename) as [-> | [-> | ->]];
    reflexivity.
Qed.

(** Unfolds the hook down to the answers of the world. *)
Ltac unfold_hook :=
  cbv beta iota zeta delta
    [hook_posix_spawn hook_posix_spawnp hook_posix_spawn_generic rewrite_and_spawn
     unrestrict_and_spawn spawn_injected skip cleanup free spawn_unrestrict
     call_spawn bind emit ret crash run fst snd negb].

Ltac read_spawns :=
  repeat (progress cbn [spawn_events app fst snd]
          || rewrite spawn_events_app
          || rewrite inspector_trace_quiet).

Ltac read_live :=
  unfold live;
  repeat (progress cbn [live_from remove_one resource_eqb app]
          || rewrite live_from_app
          || rewrite inspector_trace_balanced).

(** The answer the code is waiting for: the scrutinee at the head of the
    outcome. *)
Ltac head_scrutinee t :=
  lazymatch t with
  | match ?x with _ => _ end => head_scrutinee x
  | ?f _ =>
      lazymatch f with
      | match ?x with _ => _ end => head_scrutinee x
      | _ => t
      end
  | _ => t
  end.

(** One step along the path the code takes. *)
Ltac step_outcome :=
  lazymatch goal with
  | |- match ?o with Returns _ _ => _ | Crashes _ => _ | Replaced _ => _ end =>
      let x := head_scrutinee o in
      lazymatch x with
      | looks_restricted ?w ?p ?tr => rewrite (looks_restricted_returns w p tr)
      | _ => let E := fresh "E" in destruct x eqn:E
      end
  end; cbv beta iota.

(** [skip:] is one call of [old] with the caller's arguments. *)
Lemma skip_only_call : forall w old path fa attrp argv envp ne n ma tr,
  spawn_events tr = [] ->
  only_call (skip w old path fa attrp argv envp ne n ma tr) old
            (caller_args path fa attrp argv envp).
Proof.
  intros w old path fa attrp argv envp ne n ma tr Htr.
  unfold_hook. destruct (spawn w tr old _) eqn:E; cbv beta iota.
  - destruct ne, n, ma; unfold only_call; read_spawns; rewrite Htr; reflexivity.
  - unfold only_call. read_spawns. rewrite Htr. reflexivity.
Qed.

(** Everything before the scan of the environment ends in [skip:]. *)
Lemma hook_policy_skip : forall w old path fa attrp argv envp,
  which_dylib w path argv = None ->
  only_call (run (hook_posix_spawn_generic w old path fa attrp argv envp)) old
            (caller_args path fa attrp argv envp).
Proof.
  intros w old path fa attrp argv envp H.
  unfold run, hook_posix_spawn_generic. rewrite H.
  destruct attrp as [attr|]; [destruct (getflags_ok w)|];
    now apply skip_only_call.
Qed.

Lemma hook_unreadable_skip : forall w old path fa attrp argv envp lib,
  which_dylib w path argv = Some lib -> access_R_OK w lib = false ->
  only_call (run (hook_posix_spawn_generic w old path fa attrp argv envp)) old
            (caller_args path fa attrp argv envp).
Proof.
  intros w old path fa attrp argv envp lib H Hacc.
  unfold run, hook_posix_spawn_generic. rewrite H, Hacc. cbn [negb].
  destruct attrp as [attr|]; [destruct (getflags_ok w)|];
    now apply skip_only_call.
Qed.

Lemma hook_scan_skip : forall w old path fa attrp argv envp,
  scan_verdict (effective_env w envp) = SafeInvalid ->
  only_call (run (hook_posix_spawn_generic w old path fa attrp argv envp)) old
            (caller_args path fa attrp argv envp).
Proof.
  intros w old path fa attrp argv envp H.
  unfold scan_verdict, effective_env in H.
  unfold run, hook_posix_spawn_generic, rewrite_and_spawn.
  destruct (scan_env _ false "" 0) as [|[|] ? ?] eqn:Es; try discriminate H.
  repeat match goal with
         | |- only_call (skip _ _ _ _ _ _ _ _ _ _ _) _ _ =>
             now apply skip_only_call
         | |- only_call (bind (emit _) _ _) _ _ => cbv beta iota delta [bind emit]
         | |- context [match ?o with Some _ => _ | None => _ end] => destruct o
         | |- context [if ?b then _ else _] => destruct b
         end.
Qed.

(** The failures the code tests for all end in [skip:]. *)
Lemma hook_guarded_failures : forall w old path fa attrp argv envp,
  (attrp <> None /\ getflags_ok w = false)
  \/ (attrp <> None /\ malloc_ok w BlkMyAttr = false)
  \/ (attrp = None /\ attr_init w = None)
  \/ (malloc_ok w BlkNew = true /\ malloc_ok w BlkNewEnvp = true
      /\ restricted w path = true
      /\ (setflags_ok w = false
          \/ (Z.land (caller_flags attrp) POSIX_SPAWN_SETEXEC <> 0
              /\ fcntl_ok w = false))) ->
  only_call (run (hook_posix_spawn_generic w old path fa attrp argv envp)) old
            (caller_args path fa attrp argv envp).
Proof.
  intros w old path fa attrp argv envp H.
  assert (Hexec : forall f, Z.land (Z.lor f POSIX_SPAWN_START_SUSPENDED)
                                   POSIX_SPAWN_SETEXEC
                            = Z.land f POSIX_SPAWN_SETEXEC).
  { intros f. rewrite Z.land_lor_distr_l.
    change (Z.land POSIX_SPAWN_START_SUSPENDED POSIX_SPAWN_SETEXEC) with 0.
    apply Z.lor_0_r. }
  unfold only_call. unfold_hook.
  repeat step_outcome.
  all: read_spawns; try reflexivity.
  all: exfalso; unfold caller_flags in H; rewrite ?Hexec in *;
    repeat match goal with
           | H : _ \/ _ |- _ => destruct H
           | H : _ /\ _ |- _ => destruct H
           | H : (_ =? _) = true |- _ => apply Z.eqb_eq in H
           | H : (_ =? _) = false |- _ => apply Z.eqb_neq in H
           end; try congruence; try lia.
Qed.

Lemma releases_held_app : forall tr1 tr2 held,
  releases_held held (tr1 ++ tr2)%list =
  releases_held held tr1 && releases_held (live_from held tr1) tr2.
Proof.
  induction tr1 as [|e tr1 IH]; intros tr2 held; [reflexivity|].
  destruct e; cbn [app releases_held live_from]; rewrite ?IH; try reflexivity.
  now rewrite andb_assoc.
Qed.

Lemma inspector_trace_releases_held : forall w filename held,
  releases_held held (inspector_trace w filename) = true.
Proof.
  intros. destruct (inspector_trace_cases w filename) as [-> | [-> | ->]];
    reflexivity.
Qed.

Ltac read_resources :=
  unfold live;
  repeat (progress cbn [live_from releases_held remove_one resource_eqb existsb
                        app andb orb]
          || rewrite releases_held_app
          || rewrite live_from_app
          || rewrite inspector_trace_balanced
          || rewrite inspector_trace_releases_held).

Lemma inspector_trace_no_marker : forall w filename (f : event -> bool),
  f (Acquire InspectorFd) = false -> f (Release InspectorFd) = false ->
  f (Acquire (Heap BlkCmdsBuf)) = false -> f (Release (Heap BlkCmdsBuf)) = false ->
  existsb f (inspector_trace w filename) = false.
Proof.
  intros w filename f H1 H2 H3 H4.
  destruct (inspector_trace_cases w filename) as [-> | [-> | ->]];
    cbn [existsb]; rewrite ?H1, ?H2, ?H3, ?H4; reflexivity.
Qed.

Ltac read_marker :=
  unfold marker_made, marker_closed, cloexec_set;
  repeat (progress cbn [existsb makes_marker closes_marker sets_cloexec app orb andb]
          || rewrite existsb_app
          || rewrite inspector_trace_no_marker by reflexivity).

(** All the ways the hook can end. When it returns, everything it took is
    given back, once, but the marker descriptor, which is never closed and
    is marked close-on-exec when [fcntl] did not fail. It crashes only
    where an allocation that the code does not test has failed, before any
    spawn primitive was called, or where it reads [*pidp] through a NULL
    [pidp], after [old] has answered 0. *)
Lemma hook_outcomes : forall w old path fa attrp argv envp,
  match run (hook_posix_spawn_generic w old path fa attrp argv envp) with
  | Returns r tr =>
      (marker_made tr = false -> live tr = [])
      /\ (marker_made tr = true -> live tr = [MarkerFd])
      /\ releases_held [] tr = true
      /\ marker_closed tr = false
      /\ cloexec_set tr = marker_made tr && fcntl_ok w
      /\ (marker_made tr = true ->
          restricted w path = true
          /\ Z.land (caller_flags attrp) POSIX_SPAWN_SETEXEC <> 0
          /\ dup2_ok w = true)
  | Crashes tr =>
      ((malloc_ok w BlkNew = false \/ malloc_ok w BlkNewEnvp = false)
       /\ spawn_events tr = [])
      \/ (pidp_ok w = false
          /\ exists pre a pid,
               spawn_events tr = (pre ++ [(old, a, SpawnReturns 0 pid)])%list)
  | Replaced tr => True
  end.
Proof.
  intros w old path fa attrp argv envp.
  assert (Hexec : forall f, Z.land (Z.lor f POSIX_SPAWN_START_SUSPENDED)
                                   POSIX_SPAWN_SETEXEC
                            = Z.land f POSIX_SPAWN_SETEXEC).
  { intros f. rewrite Z.land_lor_distr_l.
    change (Z.land POSIX_SPAWN_START_SUSPENDED POSIX_SPAWN_SETEXEC) with 0.
    apply Z.lor_0_r. }
  unfold_hook.
  repeat step_outcome.
  all: try exact I.
  all: try (left; split; [auto|read_spawns; reflexivity]; fail).
  all: try (right; split; [reflexivity|];
            match goal with
            | H : (?r =? 0) = true |- _ => apply Z.eqb_eq in H; subst r
            end;
            read_spawns;
            first [ exists []; do 2 eexists; reflexivity
                  | eexists [_]; do 2 eexists; reflexivity ]; fail).
  all: split; [read_marker; intros Hm; try discriminate Hm; read_resources; reflexivity|].
  all: split; [read_marker; intros Hm; try discriminate Hm; read_resources; reflexivity|].
  all: split; [read_resources; reflexivity|].
  all: split; [read_marker; reflexivity|].
  all: split; [read_marker; reflexivity|].
  all: read_marker; intros Hm; try discriminate Hm.
  all: split; [reflexivity|]; split; [|reflexivity].
  all: unfold caller_flags; rewrite ?Hexec in *;
    repeat match goal with
           | H : (_ =? _) = false |- _ => apply Z.eqb_neq in H
           end; assumption.
Qed.

(** The two allocations the code does not test: the hook dereferences NULL. *)
Lemma hook_unchecked_allocations : forall w old path fa attrp argv envp lib,
  (attrp <> None -> getflags_ok w = true /\ malloc_ok w BlkMyAttr = true) ->
  (attrp = None -> attr_init w <> None) ->
  which_dylib w path argv = Some lib -> access_R_OK w lib = true ->
  scan_verdict (effective_env w envp) <> SafeInvalid ->
  malloc_ok w BlkNew = false \/ malloc_ok w BlkNewEnvp = false ->
  exists tr,
    run (hook_posix_spawn_generic w old path fa attrp argv envp) = Crashes tr
    /\ spawn_events tr = [].
Proof.
  intros w old path fa attrp argv envp lib Hattr Hinit Hlib Hacc Hscan Hm.
  unfold scan_verdict, effective_env in Hscan.
  unfold run, hook_posix_spawn_generic, rewrite_and_spawn.
  rewrite Hlib, Hacc. cbn [negb].
  destruct attrp as [attr|].
  - destruct Hattr as [-> ->]; [discriminate|].
    cbv beta iota delta [bind emit crash free ret].
    destruct (scan_env _ false "" 0) as [|safe orig n]; [congruence|].
    destruct (malloc_ok w BlkNew); cbn [negb]; [|eexists; split; reflexivity].
    destruct Hm as [Hm|Hm]; [discriminate|]. rewrite Hm. cbn [negb].
    destruct (negb (is_some _)); eexists; split; reflexivity.
  - destruct (attr_init w) as [a|]; [|now destruct Hinit].
    cbv beta iota delta [bind emit crash free ret].
    destruct (scan_env _ false "" 0) as [|safe orig n]; [congruence|].
    destruct (malloc_ok w BlkNew); cbn [negb]; [|eexists; split; reflexivity].
    destruct Hm as [Hm|Hm]; [discriminate|]. rewrite Hm. cbn [negb].
    destruct (negb (is_some _)); eexists; split; reflexivity.
Qed.

(** ** The unrestriction handshake *)

Lemma setexec_after_suspended : forall flags,
  Z.land (Z.lor flags POSIX_SPAWN_START_SUSPENDED) POSIX_SPAWN_SETEXEC
  = Z.land flags POSIX_SPAWN_SETEXEC.
Proof.
  intros flags. rewrite Z.land_lor_distr_l.
  change (Z.land POSIX_SPAWN_START_SUSPENDED POSIX_SPAWN_SETEXEC) with 0.
  apply Z.lor_0_r.
Qed.

Lemma suspended_forced_on : forall flags,
  Z.land (Z.lor flags POSIX_SPAWN_START_SUSPENDED) POSIX_SPAWN_START_SUSPENDED
  = POSIX_SPAWN_START_SUSPENDED.
Proof.
  intros flags. rewrite Z.land_lor_distr_l, Z.land_diag.
  apply Z.bits_inj'. intros n Hn.
  rewrite Z.lor_spec, Z.land_spec.
  destruct (Z.testbit POSIX_SPAWN_START_SUSPENDED n);
    [apply orb_true_r|now rewrite andb_false_r].
Qed.

Ltac next_spawn r p :=
  match goal with
  | |- context [match spawn ?w ?t ?f ?a with _ => _ end] =>
      destruct (spawn w t f a) as [r p|]
  end.

Ltac settle_trace :=
  cbn [outcome_trace]; rewrite <- ?app_assoc; cbn [app]; reflexivity.

(** Lines 323-357 for a restricted target, once the flags were stored. *)
Lemma handshake_after_inspection :
  forall w old path fa attrp argv envp flags my_attr new_envp new tr,
  restricted w path = true -> setflags_ok w = true ->
  let was_suspended := negb (Z.land flags POSIX_SPAWN_START_SUSPENDED =? 0) in
  let attr' := {| psa_flags := Z.lor flags POSIX_SPAWN_START_SUSPENDED;
                  psa_rest := psa_rest my_attr |} in
  let injected := {| sa_path := path; sa_file_actions := fa;
                     sa_attrp := Some attr'; sa_argv := argv;
                     sa_envp := Some new_envp |} in
  let original := caller_args path fa attrp argv envp in
  let out := unrestrict_and_spawn w old path fa attrp argv envp
               flags my_attr new_envp new tr in
  let tr1 := (tr ++ inspector_trace w path)%list in
  Z.land (psa_flags attr') POSIX_SPAWN_START_SUSPENDED = POSIX_SPAWN_START_SUSPENDED
  /\ (forall pid resume is_exec,
        unrestrict_args pid resume is_exec =
        {| sa_path := "/Library/Substitute/Helpers/unrestrict"%string;
           sa_file_actions := None; sa_attrp := None;
           sa_argv := ["/Library/Substitute/Helpers/unrestrict"%string; pid_s pid;
                       (if resume then "1" else "0")%string;
                       (if is_exec then "1" else "0")%string];
           sa_envp := Some ["_MSSafeMode=1"%string] |})
  /\ (Z.land flags POSIX_SPAWN_SETEXEC <> 0 -> dup2_ok w = true -> fcntl_ok w = true ->
      exists h rest,
        outcome_trace out =
          (tr1 ++ [Acquire MarkerFd; SetCloexec;
                   Spawn Posix_spawn
                     (unrestrict_args (getpid w) (negb was_suspended) true) h]
               ++ rest)%list
        /\ match h with
           | SpawnReplaces => rest = []
           | SpawnReturns hret hpid =>
               if hret =? 0
               then exists r rest', rest = Waitpid hpid :: Spawn old injected r :: rest'
               else exists r rest',
                      rest = Spawn old original r :: rest'
                      /\ spawn_events rest' = []
                      /\ match r with
                         | SpawnReturns ret pid => exists tr', out = Returns (ret, pid) tr'
                         | SpawnReplaces => exists tr', out = Replaced tr'
                         end
           end)
  /\ (Z.land flags POSIX_SPAWN_SETEXEC = 0 ->
      exists r rest,
        outcome_trace out = (tr1 ++ [Spawn old injected r] ++ rest)%list
        /\ match r with
           | SpawnReplaces => rest = []
           | SpawnReturns ret pid =>
               if ret =? 0
               then if pidp_ok w
                    then exists h,
                           spawn_events rest =
                             [(Posix_spawn,
                               unrestrict_args pid (negb was_suspended) false, h)]
                           /\ (h = SpawnReplaces
                               \/ exists tr', out = Returns (0, pid) tr')
                    else rest = [] /\ exists tr', out = Crashes tr'
               else spawn_events rest = []
                    /\ exists tr', out = Returns (ret, pid) tr'
           end).
Proof.
  intros w old path fa attrp argv envp flags my_attr new_envp new tr Hr Hs
         was_suspended attr' injected original out tr1.
  split; [apply suspended_forced_on|]. split; [intros pid [|] [|]; reflexivity|].
  subst out. unfold unrestrict_and_spawn.
  cbv beta iota delta [bind].
  rewrite looks_restricted_returns, Hr, Hs. cbn [negb].
  rewrite setexec_after_suspended.
  fold was_suspended. fold attr'. fold tr1.
  split.
  - intros Hexec Hdup Hfc.
    apply Z.eqb_neq in Hexec. rewrite Hexec, Hdup, Hfc. cbn [negb].
    unfold_hook. fold injected. fold original.
    next_spawn hret hpid.
    2:{ exists SpawnReplaces, []. split; [settle_trace|reflexivity]. }
    exists (SpawnReturns hret hpid).
    destruct (hret =? 0) eqn:Eh0; cbv beta iota.
    + next_spawn rv pv.
      2:{ eexists. split; [settle_trace|]. eexists. eexists. reflexivity. }
      destruct (rv =? 0); cbv beta iota.
      * destruct (pidp_ok w); cbv beta iota.
        -- next_spawn h2 p2.
           ++ destruct (h2 =? 0); cbv beta iota; destruct new;
                (eexists; split; [settle_trace|]; eexists; eexists; reflexivity).
           ++ eexists. split; [settle_trace|]. eexists. eexists. reflexivity.
        -- eexists. split; [settle_trace|]. eexists. eexists. reflexivity.
      * destruct new;
          (eexists; split; [settle_trace|]; eexists; eexists; reflexivity).
    + next_spawn rv pv.
      * destruct new;
          (eexists; split; [settle_trace|];
           eexists; eexists; split; [reflexivity|];
           split; [reflexivity|]; eexists; reflexivity).
      * eexists. split; [settle_trace|].
        eexists. eexists. split; [reflexivity|].
        split; [reflexivity|]. eexists. reflexivity.
  - intros Hexec. rewrite Hexec. cbn [Z.eqb negb].
    unfold_hook. fold injected.
    next_spawn rv pv.
    2:{ exists SpawnReplaces, []. split; [settle_trace|reflexivity]. }
    exists (SpawnReturns rv pv).
    destruct (rv =? 0) eqn:E0; cbv beta iota.
    + apply Z.eqb_eq in E0. subst rv.
      destruct (pidp_ok w); cbv beta iota.
      * next_spawn h2 p2.
        -- destruct (h2 =? 0); cbv beta iota; destruct new;
             (eexists; split; [settle_trace|]; eexists; split;
              [reflexivity|right; eexists; reflexivity]).
        -- eexists. split; [settle_trace|]. eexists. split; [reflexivity|now left].
      * exists []. split; [settle_trace|]. split; [reflexivity|].
        eexists. reflexivity.
    + destruct new;
        (eexists; split; [settle_trace|]; split; [reflexivity|];
         eexists; reflexivity).
Qed.

(** How the hook gets to the handshake. *)
Lemma hook_reaches_handshake : forall w old path fa attrp argv envp lib my_attr orig n,
  (attrp <> None -> getflags_ok w = true) ->
  which_dylib w path argv = Some lib -> access_R_OK w lib = true ->
  match attrp with
  | Some attr => if malloc_ok w BlkMyAttr then Some attr else None
  | None => attr_init w
  end = Some my_attr ->
  scan_env (effective_env w envp) false "" 0 = ScanDone false orig n ->
  malloc_ok w BlkNew = true -> malloc_ok w BlkNewEnvp = true ->
  run (hook_posix_spawn_generic w old path fa attrp argv envp) =
  unrestrict_and_spawn w old path fa attrp argv envp (caller_flags attrp) my_attr
    (build_envp (effective_env w envp) n (rebuilt_new false lib orig))
    (is_some (rebuilt_new false lib orig))
    ([Acquire (Heap BlkMyAttr); Acquire (Heap BlkNew)]
       ++ (if is_some (rebuilt_new false lib orig) then [] else [Release (Heap BlkNew)])
       ++ [Acquire (Heap BlkNewEnvp)])%list.
Proof.
  intros w old path fa attrp argv envp lib my_attr orig n Hg Hlib Hacc Hattr Hscan
         Hm1 Hm2.
  unfold run, hook_posix_spawn_generic, rewrite_and_spawn, effective_env in *.
  rewrite Hlib, Hacc, Hattr. cbn [negb].
  assert (Hf : match attrp with
               | Some attr => if getflags_ok w then Some (psa_flags attr) else None
               | None => Some 0
               end = Some (caller_flags attrp)).
  { destruct attrp as [attr|]; [|reflexivity]. rewrite Hg by discriminate. reflexivity. }
  rewrite Hf. cbv beta iota delta [bind emit]. rewrite Hscan, Hm1, Hm2.
  cbn [negb]. cbv beta iota delta [bind emit free ret].
  destruct (is_some (rebuilt_new false lib orig)); reflexivity.
Qed.

Lemma scan_verdict_disabled : forall my_envp,
  scan_verdict my_envp = SafeDisabled ->
  exists orig n, scan_env my_envp false "" 0 = ScanDone false orig n.
Proof.
  intros my_envp H. unfold scan_verdict in H.
  destruct (scan_env my_envp false "" 0) as [|[|] orig n]; try discriminate.
  now exists orig, n.
Qed.

Lemma build_envp_spec : forall lib my_envp orig n,
  scan_env my_envp false "" 0 = ScanDone false orig n ->
  build_envp my_envp n (rebuilt_new false lib orig) = spec_env_last false lib my_envp.
Proof.
  intros lib my_envp orig n H.
  pose proof (rewrite_env_closed_form lib my_envp) as Hc.
  unfold rewrite_env, scan_verdict in Hc. rewrite H in Hc. now inversion Hc.
Qed.

(** What the hook does for a target that needs no unrestriction: one call
    of the primitive, with the hook's attributes and the rewritten
    environment. After an answer of 0 it reads [*pidp]. *)
Lemma hook_injects_selected_library :
  forall w old path fa attrp argv envp lib my_attr,
  (attrp <> None -> getflags_ok w = true) ->
  which_dylib w path argv = Some lib -> access_R_OK w lib = true ->
  match attrp with
  | Some attr => if malloc_ok w BlkMyAttr then Some attr else None
  | None => attr_init w
  end = Some my_attr ->
  scan_verdict (effective_env w envp) = SafeDisabled ->
  malloc_ok w BlkNew = true -> malloc_ok w BlkNewEnvp = true ->
  restricted w path = false ->
  let out := run (hook_posix_spawn_generic w old path fa attrp argv envp) in
  exists answer,
    spawn_events (outcome_trace out) =
      [(old,
        {| sa_path := path; sa_file_actions := fa; sa_attrp := Some my_attr;
           sa_argv := argv;
           sa_envp := Some (spec_env_last false lib (effective_env w envp)) |},
        answer)]
    /\ match answer with
       | SpawnReturns r pid =>
           if (r =? 0) && negb (pidp_ok w) then exists tr, out = Crashes tr
           else exists tr, out = Returns (r, pid) tr
       | SpawnReplaces => exists tr, out = Replaced tr
       end.
Proof.
  intros w old path fa attrp argv envp lib my_attr Hg Hlib Hacc Hattr Hv Hm1 Hm2 Hr out.
  destruct (scan_verdict_disabled _ Hv) as [orig [n Hscan]].
  subst out.
  rewrite (hook_reaches_handshake w old path fa attrp argv envp lib my_attr orig n)
    by assumption.
  rewrite (build_envp_spec lib _ orig n Hscan).
  unfold unrestrict_and_spawn. cbv beta iota delta [bind].
  rewrite looks_restricted_returns, Hr.
  unfold_hook.
  match goal with
  | |- context [match spawn ?w ?t ?f ?a with _ => _ end] =>
      destruct (spawn w t f a) as [rv pv|]
  end.
  - exists (SpawnReturns rv pv).
    destruct (rv =? 0); cbv beta iota; [destruct (pidp_ok w); cbv beta iota|];
      cbn [andb negb];
      destruct (is_some (rebuilt_new false lib orig));
      (split; [cbn [outcome_trace]; read_spawns; reflexivity|eexists; reflexivity]).
  - exists SpawnReplaces.
    destruct (is_some (rebuilt_new false lib orig));
      (split; [cbn [outcome_trace]; read_spawns; reflexivity|eexists; reflexivity]).
Qed.

(** * The claims *)

(** ** C1: failures inside the hook *)

(** C1, the code at its failing input. When the string of the new
    environment cannot be allocated the hook does not fall back: it writes
    through the NULL pointer before any spawn primitive was called. *)
Theorem C1_environment_allocation_failure_crashes :
  run (hook_posix_spawn_generic
         (sample_world false no_files (all_mallocs_but BlkNew) 0 0)
         Posix_spawn "/bin/ls" None None ["ls"%string] None)
  = Crashes [Acquire (Heap BlkMyAttr)]
  /\ run (hook_posix_spawn_generic
            (sample_world false no_files (all_mallocs_but BlkNewEnvp) 0 0)
            Posix_spawn "/bin/ls" None None ["ls"%string] None)
     = Crashes [Acquire (Heap BlkMyAttr); Acquire (Heap BlkNew)].
Proof. split; reflexivity. Qed.

(** ** C2: the rewritten environment *)

(** C2 (as amended). For every effective environment, unless a safe-mode
    variable holds an unrecognized value (then nothing is rewritten), the
    rewriter produces the input without any DYLD_INSERT_LIBRARIES entry,
    all other entries verbatim and in order, followed by at most one
    rebuilt entry, left out when its value is empty. The value comes from
    the LAST occurrence of the variable: its colon-separated elements with
    both companion paths dropped, the requested library appended unless
    safe mode is on; an empty element is not carried over when it would
    come first in the result or follows the final colon of the value. *)
Theorem C2_rewrite_env_captures_last_occurrence : forall dylib my_envp,
  rewrite_env dylib my_envp =
    match scan_verdict my_envp with
    | SafeInvalid => RewriteSkip
    | SafeEnabled => Rewritten true (spec_env_last true dylib my_envp)
    | SafeDisabled => Rewritten false (spec_env_last false dylib my_envp)
    end
  /\ (forall safe,
        other_entries (spec_env_last safe dylib my_envp) = other_entries my_envp
        /\ dyld_insert_values (spec_env_last safe dylib my_envp) =
           nonempty_value (merged_value safe dylib (last_dyld_insert my_envp))).
Proof.
  intros dylib my_envp. split.
  - apply rewrite_env_closed_form.
  - intros safe. unfold spec_env_last. split.
    + apply other_entries_rewritten.
    + apply dyld_insert_values_rewritten.
Qed.

(** C2, counterexample. With two occurrences of the variable the code keeps
    the value of the second one, not of the first. *)
Lemma C2_first_occurrence_is_not_captured :
  rewrite_env bl_dylib ["DYLD_INSERT_LIBRARIES=/a"; "DYLD_INSERT_LIBRARIES=/b"]
    = Rewritten false
        ["DYLD_INSERT_LIBRARIES=/b:/Library/Substitute/Helpers/bundle-loader.dylib"]
  /\ spec_env_first false bl_dylib
       ["DYLD_INSERT_LIBRARIES=/a"; "DYLD_INSERT_LIBRARIES=/b"]
     = ["DYLD_INSERT_LIBRARIES=/a:/Library/Substitute/Helpers/bundle-loader.dylib"]
  /\ rewrite_env bl_dylib ["DYLD_INSERT_LIBRARIES=/a"; "DYLD_INSERT_LIBRARIES=/b"]
     <> Rewritten false
          (spec_env_first false bl_dylib
             ["DYLD_INSERT_LIBRARIES=/a"; "DYLD_INSERT_LIBRARIES=/b"]).
Proof.
  split; [reflexivity|]. split; [reflexivity|].
  vm_compute. discriminate.
Qed.

(** Empty elements: one in front of the value, or after its last colon,
    does not reach the rebuilt value; one in the middle does. *)
Example rewrite_env_empty_elements :
  rewrite_env psh_dylib ["DYLD_INSERT_LIBRARIES=:/a::/b:"]
  = Rewritten false
      ["DYLD_INSERT_LIBRARIES=/a::/b:/Library/Substitute/Helpers/posixspawn-hook.dylib"].
Proof. reflexivity. Qed.

(** ** C3: rewriting twice *)

(** C3 (as amended). For each of the two companion paths as the library
    to add, rewriting an environment and rewriting the result again gives
    the same environment, hence the same injected-libraries value, unless
    safe mode is on and the value built by the first rewrite ends in a
    colon, its last element being empty: then, and only then, the second
    rewrite drops that colon, and nothing else. So the rewrite is
    idempotent with safe mode off, and in safe mode whenever the original
    value has no empty element; the value never grows. *)
Theorem C3_rewrite_env_idempotent : forall L E safe E1,
  (safe = false -> is_substitute L = true) ->
  rewrite_env L E = Rewritten safe E1 ->
  let v1 := merged_value safe L (last_dyld_insert E) in
  let v2 := merged_value safe L v1 in
  exists E2,
    rewrite_env L E1 = Rewritten safe E2
    /\ dyld_insert_of E1 = value_if_any v1
    /\ dyld_insert_of E2 = value_if_any v2
    /\ (safe = false -> E2 = E1 /\ dyld_insert_of E1 = Some v1)
    /\ (E2 = E1 <-> v2 = v1)
    /\ (dyld_insert_of E2 = dyld_insert_of E1 <-> v2 = v1)
    /\ (v2 = v1 <-> safe = false \/ ends_in_colon v1 = false)
    /\ ((forall e, In e (dil_elements (last_dyld_insert E)) -> e <> "") -> v2 = v1)
    /\ (v2 <> v1 -> v1 = v2 ++ ":")
    /\ (String.length v2 <= String.length v1)%nat.
Proof.
  intros L E safe E1 HL H v1 v2.
  cut (exists E2,
         rewrite_env L E1 = Rewritten safe E2
         /\ dyld_insert_of E1 = value_if_any v1
         /\ dyld_insert_of E2 = value_if_any v2
         /\ (safe = false -> E2 = E1 /\ dyld_insert_of E1 = Some v1)
         /\ (E2 = E1 <-> v2 = v1)
         /\ (v2 = v1 <-> safe = false \/ ends_in_colon v1 = false)
         /\ (v2 <> v1 -> v1 = v2 ++ ":")
         /\ (String.length v2 <= String.length v1)%nat).
  { intros [E2 [H1 [H2 [H3 [H4 [H5 [H6 [H7 H8]]]]]]]].
    exists E2. repeat (split; [assumption|]).
    split.
    { rewrite H2, H3. split; [apply value_if_any_inj|now intros ->]. }
    split; [assumption|].
    split; [|split; assumption].
    intros Hne. apply H6. destruct safe; [right|now left].
    now apply merged_safe_no_empty. }
  rewrite rewrite_env_closed_form in H.
  assert (Hv : scan_verdict E = (if safe then SafeEnabled else SafeDisabled)
               /\ E1 = spec_env_last safe L E).
  { destruct (scan_verdict E); inversion H; subst; auto. }
  destruct Hv as [Hv ->]. clear H.
  exists (spec_env_last safe L (spec_env_last safe L E)).
  assert (Hr : spec_env_last safe L (spec_env_last safe L E)
               = (other_entries E ++ rebuilt_entry v2)%list).
  { unfold spec_env_last at 1 2.
    now rewrite other_entries_rewritten, last_values_rewritten. }
  assert (Heq : spec_env_last safe L (spec_env_last safe L E) = spec_env_last safe L E
                <-> v2 = v1).
  { rewrite Hr. unfold spec_env_last. fold v1. split.
    - intros Ha. apply app_inv_head in Ha. now apply rebuilt_entry_inj.
    - now intros ->. }
  split.
  { rewrite rewrite_env_closed_form.
    unfold spec_env_last at 1. rewrite scan_verdict_rewritten, Hv.
    destruct safe; reflexivity. }
  split; [apply dyld_insert_of_rewritten|].
  split; [rewrite Hr; apply dyld_insert_of_rewritten|].
  destruct safe.
  - destruct (merged_safe_again L (last_dyld_insert E)) as [[He Hs]|[He Hs]];
      fold v1 in He, Hs; fold v2 in Hs.
    + split; [discriminate|]. split; [exact Heq|].
      split; [tauto|]. split; [congruence|]. rewrite Hs. lia.
    + split; [discriminate|]. split; [exact Heq|].
      assert (Hlen : String.length v1 = (String.length v2 + 1)%nat)
        by (rewrite Hs at 1; rewrite length_append; reflexivity).
      split; [|split; [intros _; exact Hs|lia]].
      split.
      * intros E'. rewrite E' in Hlen. lia.
      * intros [E'|E']; congruence.
  - specialize (HL eq_refl).
    assert (Hf : v2 = v1) by (apply merged_value_fixed; exact HL).
    split.
    + split; [now apply Heq|].
      unfold spec_env_last. rewrite dyld_insert_of_rewritten.
      pose proof (merged_value_nonempty L (last_dyld_insert E) HL) as Hn.
      fold v1 in Hn |- *. destruct v1; [discriminate Hn|reflexivity].
    + split; [exact Heq|]. split; [tauto|]. split; [congruence|]. rewrite Hf. lia.
Qed.

Lemma C3_rewrite_env_idempotent_witness :
  rewrite_env bl_dylib ["_MSSafeMode=1"; "DYLD_INSERT_LIBRARIES=/x::/y"]
  = Rewritten true ["_MSSafeMode=1"; "DYLD_INSERT_LIBRARIES=/x::/y"].
Proof.
  destruct (C3_rewrite_env_idempotent bl_dylib
              ["_MSSafeMode=1";
               "DYLD_INSERT_LIBRARIES=/x::/y:/Library/Substitute/Helpers/bundle-loader.dylib"]
              true ["_MSSafeMode=1"; "DYLD_INSERT_LIBRARIES=/x::/y"]
              (fun _ => eq_refl) eq_refl)
    as [E2 [H1 [_ [_ [_ [H5 [_ [H6 _]]]]]]]].
  rewrite H1. f_equal. apply H5. apply H6. right. reflexivity.
Defined.

(** With safe mode off nothing changes at the second rewrite either. *)
Example rewrite_env_twice :
  rewrite_env bl_dylib ["HOME=/"; "DYLD_INSERT_LIBRARIES=/x::/y:"]
  = Rewritten false
      ["HOME=/";
       "DYLD_INSERT_LIBRARIES=/x::/y:/Library/Substitute/Helpers/bundle-loader.dylib"]
  /\ rewrite_env bl_dylib
       ["HOME=/";
        "DYLD_INSERT_LIBRARIES=/x::/y:/Library/Substitute/Helpers/bundle-loader.dylib"]
     = Rewritten false
         ["HOME=/";
          "DYLD_INSERT_LIBRARIES=/x::/y:/Library/Substitute/Helpers/bundle-loader.dylib"].
Proof. split; reflexivity. Qed.

(** C3, counterexample. In safe mode nothing is appended, and a value that
    ends in an empty element loses one more colon at the second rewrite. *)
Lemma C3_safe_mode_rewrite_not_idempotent :
  rewrite_env bl_dylib ["_MSSafeMode=1"; "DYLD_INSERT_LIBRARIES=/a::"]
    = Rewritten true ["_MSSafeMode=1"; "DYLD_INSERT_LIBRARIES=/a:"]
  /\ rewrite_env bl_dylib ["_MSSafeMode=1"; "DYLD_INSERT_LIBRARIES=/a:"]
    = Rewritten true ["_MSSafeMode=1"; "DYLD_INSERT_LIBRARIES=/a"]
  /\ dyld_insert_of ["_MSSafeMode=1"; "DYLD_INSERT_LIBRARIES=/a:"]
     <> dyld_insert_of ["_MSSafeMode=1"; "DYLD_INSERT_LIBRARIES=/a"].
Proof.
  split; [reflexivity|]. split; [reflexivity|]. vm_compute. discriminate.
Qed.

(** A library that is not a companion would be appended again at each
    rewrite; the hook never adds one. *)
Example rewrite_env_other_library_grows :
  rewrite_env "/x.dylib" ["DYLD_INSERT_LIBRARIES=/x.dylib"]
  = Rewritten false ["DYLD_INSERT_LIBRARIES=/x.dylib:/x.dylib"].
Proof. reflexivity. Qed.

(** ** C4: safe mode *)

(** C4 (as amended). The two safe-mode variables are recognized in every
    entry, in order: "0" or "NO" leaves the mode as it is, "1" or "YES"
    turns it on for good, and any other value, the empty one included,
    makes the hook skip all injection: it only calls the original primitive
    with the caller's arguments. When safe mode is on, no element of the
    injected-libraries value the rewriter builds is a companion path. *)
Theorem C4_safe_mode : forall w old path fa attrp argv envp,
  let my_envp := effective_env w envp in
  scan_verdict my_envp =
    (if existsb value_invalid (safe_mode_values my_envp) then SafeInvalid
     else if existsb value_enables (safe_mode_values my_envp) then SafeEnabled
     else SafeDisabled)
  /\ (scan_verdict my_envp = SafeInvalid ->
      only_call (run (hook_posix_spawn_generic w old path fa attrp argv envp)) old
                (caller_args path fa attrp argv envp))
  /\ (forall dylib new_envp,
        rewrite_env dylib my_envp = Rewritten true new_envp ->
        forall v e,
          In v (dyld_insert_values new_envp) -> In e (split_colons v) ->
          e <> bl_dylib /\ e <> psh_dylib).
Proof.
  intros w old path fa attrp argv envp my_envp. split; [|split].
  - apply scan_verdict_spec.
  - apply hook_scan_skip.
  - intros dylib new_envp H v e Hv He.
    rewrite rewrite_env_closed_form in H.
    destruct (scan_verdict my_envp); try discriminate. inversion H; subst. clear H.
    unfold spec_env_last in Hv. rewrite dyld_insert_values_rewritten in Hv.
    assert (Hv' : v = merged_value true dylib (last_dyld_insert my_envp)).
    { destruct (merged_value true dylib (last_dyld_insert my_envp)); cbn in Hv.
      - contradiction.
      - destruct Hv as [Hv|[]]. now symmetry. }
    subst v.
    pose proof (merged_safe_elements dylib (last_dyld_insert my_envp)) as Hall.
    rewrite Forall_forall in Hall. specialize (Hall e He).
    unfold is_substitute in Hall. apply orb_false_iff in Hall as [H1 H2].
    split; now apply String.eqb_neq.
Qed.

Lemma C4_safe_mode_witness :
  only_call
    (run (hook_posix_spawn_generic (sample_world false no_files all_mallocs 0 0)
            Posix_spawn "/bin/ls" None None ["ls"%string]
            (Some ["_SubstituteSafeMode=maybe"%string])))
    Posix_spawn
    (caller_args "/bin/ls" None None ["ls"%string]
       (Some ["_SubstituteSafeMode=maybe"%string])).
Proof.
  pose proof (C4_safe_mode (sample_world false no_files all_mallocs 0 0)
                Posix_spawn "/bin/ls" None None ["ls"%string]
                (Some ["_SubstituteSafeMode=maybe"%string])) as H.
  cbv zeta in H. destruct H as [_ [H _]]. apply H. reflexivity.
Defined.

(** C4, counterexample. A "0" after a "1" does not turn safe mode off: the
    last value does not win. *)
Lemma C4_last_value_does_not_win :
  spec_last_value_wins ["_MSSafeMode=1"%string; "_SubstituteSafeMode=0"%string]
    = SafeDisabled
  /\ scan_verdict ["_MSSafeMode=1"%string; "_SubstituteSafeMode=0"%string]
    = SafeEnabled.
Proof. split; reflexivity. Qed.

(** An empty value is not passed over: it is an unrecognized value. *)
Example scan_verdict_empty_value :
  scan_verdict ["_MSSafeMode="%string; "_MSSafeMode=1"%string] = SafeInvalid.
Proof. reflexivity. Qed.

(** With safe mode on, the environment built by the rewriter is released
    unused: the process is created with the environment of the caller. *)
Example safe_mode_spawns_with_caller_environment :
  run (hook_posix_spawn_generic (sample_world false no_files all_mallocs 0 0)
         Posix_spawn "/bin/ls" None None ["ls"%string]
         (Some ["_MSSafeMode=1"%string;
                ("DYLD_INSERT_LIBRARIES=" ++ bl_dylib)%string]))
  = Returns (0, 42)
      [Acquire (Heap BlkMyAttr); Acquire (Heap BlkNew); Release (Heap BlkNew);
       Acquire (Heap BlkNewEnvp);
       Spawn Posix_spawn
         (caller_args "/bin/ls" None None ["ls"%string]
            (Some ["_MSSafeMode=1"%string;
                   ("DYLD_INSERT_LIBRARIES=" ++ bl_dylib)%string]))
         (SpawnReturns 0 42);
       Release (Heap BlkNewEnvp); Release (Heap BlkMyAttr)].
Proof. reflexivity. Qed.

(** ** C5: the inspector *)

(** C5 (as amended). The inspector always returns. It answers true exactly
    when the file opens, a header is found (for a fat container with at
    least one architecture: in the first slice, at the big-endian offset of
    its descriptor), the buffer for the load commands is allocated, all the
    announced load-command bytes can be read at the 32-bit sum of the slice
    offset and the header size, and they contain the eleven bytes of
    "__restrict" followed by its terminating NUL. An open failure, a
    truncated header, a fat header with no architecture, an unknown magic
    and truncated load commands all give false. *)
Theorem C5_looks_restricted_verdict : forall w filename,
  (forall tr,
     looks_restricted w filename tr =
     Returns (restricted w filename) (tr ++ inspector_trace w filename)%list)
  /\ (restricted w filename = true <->
      exists content cmds,
        file_bytes w filename = Some content
        /\ spec_load_commands content = Some cmds
        /\ malloc_ok w BlkCmdsBuf = true
        /\ occurs sectname cmds)
  /\ (file_bytes w filename = None -> restricted w filename = false)
  /\ (forall content,
        file_bytes w filename = Some content ->
        bytes_at content 0 28 = None
        \/ (exists h, bytes_at content 0 28 = Some h
                      /\ be32_at h 0 = FAT_MAGIC /\ be32_at h 4 = 0)
        \/ (exists slice, spec_slice content = Some slice
                          /\ bytes_at content slice 28 = None)
        \/ (exists slice h, spec_slice content = Some slice
                            /\ bytes_at content slice 28 = Some h
                            /\ spec_mach_header h = None)
        \/ (exists slice h hsize sizeofcmds,
              spec_slice content = Some slice
              /\ bytes_at content slice 28 = Some h
              /\ spec_mach_header h = Some (hsize, sizeofcmds)
              /\ bytes_at content ((slice + hsize) mod 2 ^ 32) sizeofcmds = None) ->
        restricted w filename = false).
Proof.
  intros w filename.
  assert (Hiff : restricted w filename = true <->
      exists content cmds,
        file_bytes w filename = Some content
        /\ spec_load_commands content = Some cmds
        /\ malloc_ok w BlkCmdsBuf = true
        /\ occurs sectname cmds).
  { rewrite restricted_closed_form. unfold spec_load_commands.
    destruct (file_bytes w filename) as [content|].
    2:{ split; [discriminate|]. intros [c [cmds [H _]]]. discriminate. }
    rewrite read_header_spec.
    destruct (spec_slice content) as [slice|] eqn:Es.
    2:{ split; [discriminate|]. intros [c [cmds [H [H' _]]]].
        inversion H; subst. rewrite Es in H'. discriminate. }
    destruct (bytes_at content slice 28) as [u|] eqn:Eu.
    2:{ split; [discriminate|]. intros [c [cmds [H [H' _]]]].
        inversion H; subst. rewrite Es, Eu in H'. discriminate. }
    pose proof (classify_magic_spec u) as Hc.
    destruct (classify_magic (u_magic u)) as [[swap is64]|].
    2:{ split; [discriminate|]. intros [c [cmds [H [H' _]]]].
        inversion H; subst. rewrite Es, Eu, <- Hc in H'. discriminate. }
    rewrite scan_load_commands_spec. split.
    - intros [cmds [Hm [Hb Ho]]]. exists content, cmds.
      rewrite Es, Eu, <- Hc. auto.
    - intros [c [cmds [H [Hb [Hm Ho]]]]]. inversion H; subst.
      rewrite Es, Eu, <- Hc in Hb. exists cmds. auto. }
  split; [intros tr; apply looks_restricted_returns|].
  split; [exact Hiff|]. split.
  - intros Hopen. rewrite restricted_closed_form, Hopen. reflexivity.
  - intros content Hopen Hcase.
    apply not_true_is_false. intros E.
    apply Hiff in E as [c [cmds [H [H' _]]]].
    rewrite Hopen in H. inversion H; subst c. clear H.
    unfold spec_load_commands in H'.
    destruct Hcase as [H0|[[h [H0 [Hf Hn]]]|[[slice [Hsl Hb]]|[[slice [h [Hsl [Hb Hh]]]]
                      |[slice [h [hsize [sizeofcmds [Hsl [Hb [Hh Hc]]]]]]]]]]].
    + unfold spec_slice in H'. rewrite H0 in H'. discriminate.
    + unfold spec_slice in H'. rewrite H0, Hf, Hn in H'. discriminate.
    + rewrite Hsl, Hb in H'. discriminate.
    + rewrite Hsl, Hb, Hh in H'. discriminate.
    + rewrite Hsl, Hb, Hh, Hc in H'. discriminate.
Qed.

Lemma C5_looks_restricted_verdict_witness :
  restricted (sample_world false (fun _ => Some fat_binary) all_mallocs 0 0) "/bin/ls"
  = true.
Proof.
  apply (proj1 (proj2 (C5_looks_restricted_verdict
                         (sample_world false (fun _ => Some fat_binary) all_mallocs 0 0)
                         "/bin/ls"))).
  exists fat_binary, sectname. split; [reflexivity|]. split; [reflexivity|].
  split; [reflexivity|]. exists [], []. reflexivity.
Defined.

(** C5, counterexample. The load commands of [lookalike_binary] contain the
    ten bytes of "__restrict", followed by "ed" and not by a NUL: the
    inspector answers false. *)
Lemma C5_section_name_alone_is_not_matched :
  restricted (sample_world false (fun _ => Some lookalike_binary) all_mallocs 0 0)
             "/bin/ls" = false
  /\ exists cmds,
       spec_load_commands lookalike_binary = Some cmds
       /\ occurs sectname_without_nul cmds.
Proof.
  split; [reflexivity|].
  exists (list_byte_of_string "__restricted" ++ [x00])%list.
  split; [reflexivity|]. exists [], [x65; x64; x00]. reflexivity.
Qed.

(** The verdict of a fat container is the one of its first slice. *)
Example looks_restricted_fat :
  run (looks_restricted
         (sample_world false (fun _ => Some fat_binary) all_mallocs 0 0) "/bin/ls")
  = Returns true
      [Acquire InspectorFd; Acquire (Heap BlkCmdsBuf); Release (Heap BlkCmdsBuf);
       Release InspectorFd].
Proof. reflexivity. Qed.

(** ** C6: the injection policy *)

(** C6. In launchd only "/usr/libexec/xpcproxy" is injected, with
    posixspawn-hook.dylib; elsewhere bundle-loader.dylib is selected unless
    the target is the substituted helper or "/usr/sbin/notifyd", or the
    basename of argv[0] is "sshd", that is, argv[0] is "sshd" or ends in
    "/sshd"; a selected library that cannot be read is not injected. In
    each of these cases all the hook does is call the original primitive
    with the caller's arguments and hand back its answer. A selected,
    readable library is the one that the environment of the new process
    gets. *)
Theorem C6_injection_policy : forall w old path fa attrp argv envp,
  let out := run (hook_posix_spawn_generic w old path fa attrp argv envp) in
  let original := caller_args path fa attrp argv envp in
  (is_launchd w = true -> path = "/usr/libexec/xpcproxy"%string ->
     which_dylib w path argv = Some psh_dylib)
  /\ (is_launchd w = true -> path <> "/usr/libexec/xpcproxy"%string ->
        which_dylib w path argv = None /\ only_call out old original)
  /\ (is_launchd w = false ->
        path <> "/Library/Substitute/Helpers/substituted"%string ->
        path <> "/usr/sbin/notifyd"%string ->
        ~ (exists argv0,
             hd_error argv = Some argv0
             /\ (argv0 = "sshd"%string
                 \/ exists dir, argv0 = (dir ++ "/sshd")%string)) ->
        which_dylib w path argv = Some bl_dylib)
  /\ (is_launchd w = false ->
        path = "/Library/Substitute/Helpers/substituted"%string
        \/ path = "/usr/sbin/notifyd"%string
        \/ (exists argv0,
              hd_error argv = Some argv0
              /\ (argv0 = "sshd"%string
                  \/ exists dir, argv0 = (dir ++ "/sshd")%string)) ->
        which_dylib w path argv = None /\ only_call out old original)
  /\ (forall lib, which_dylib w path argv = Some lib ->
        access_R_OK w lib = false -> only_call out old original)
  /\ (forall lib my_attr,
        which_dylib w path argv = Some lib -> access_R_OK w lib = true ->
        (attrp <> None -> getflags_ok w = true) ->
        match attrp with
        | Some attr => if malloc_ok w BlkMyAttr then Some attr else None
        | None => attr_init w
        end = Some my_attr ->
        scan_verdict (effective_env w envp) = SafeDisabled ->
        malloc_ok w BlkNew = true -> malloc_ok w BlkNewEnvp = true ->
        restricted w path = false ->
        exists answer,
          spawn_events (outcome_trace out) =
            [(old,
              {| sa_path := path; sa_file_actions := fa; sa_attrp := Some my_attr;
                 sa_argv := argv;
                 sa_envp := Some (spec_env_last false lib (effective_env w envp)) |},
              answer)]).
Proof.
  intros w old path fa attrp argv envp out original.
  assert (L1 : is_launchd w = true -> path <> "/usr/libexec/xpcproxy"%string ->
               which_dylib w path argv = None).
  { intros Hl Hp. unfold which_dylib. rewrite Hl.
    apply String.eqb_neq in Hp. now rewrite Hp. }
  assert (Hsshd : xbasename (argv0_or_empty argv) = "sshd"%string
                  <-> exists argv0,
                        hd_error argv = Some argv0
                        /\ (argv0 = "sshd"%string
                            \/ exists dir, argv0 = (dir ++ "/sshd")%string)).
  { unfold argv0_or_empty. destruct (hd_error argv) as [a|].
    - rewrite xbasename_is_sshd. split.
      + intros H. now exists a.
      + intros [a0 [Ha H]]. now inversion Ha; subst.
    - split; [discriminate|]. intros [a0 [Ha _]]. discriminate. }
  assert (L2 : is_launchd w = false ->
               path = "/Library/Substitute/Helpers/substituted"%string
               \/ path = "/usr/sbin/notifyd"%string
               \/ (exists argv0,
                     hd_error argv = Some argv0
                     /\ (argv0 = "sshd"%string
                         \/ exists dir, argv0 = (dir ++ "/sshd")%string)) ->
               which_dylib w path argv = None).
  { intros Hl Hp. unfold which_dylib. rewrite Hl.
    destruct Hp as [Hp|[Hp|Hp]]; [| |apply Hsshd in Hp];
      apply String.eqb_eq in Hp; rewrite Hp; now rewrite ?orb_true_r. }
  repeat split.
  - intros Hl ->. unfold which_dylib. now rewrite Hl.
  - now apply L1.
  - apply hook_policy_skip. now apply L1.
  - intros Hl H1 H2 H3. unfold which_dylib. rewrite Hl.
    rewrite <- Hsshd in H3.
    apply String.eqb_neq in H1, H2, H3. now rewrite H1, H2, H3.
  - now apply L2.
  - apply hook_policy_skip. now apply L2.
  - intros lib. apply hook_unreadable_skip.
  - intros lib my_attr Hlib Hacc Hg Hattr Hv Hm1 Hm2 Hr.
    destruct (hook_injects_selected_library w old path fa attrp argv envp lib my_attr
                Hg Hlib Hacc Hattr Hv Hm1 Hm2 Hr) as [answer [H _]].
    now exists answer.
Qed.

Lemma C6_injection_policy_witness :
  only_call
    (run (hook_posix_spawn_generic (sample_world true no_files all_mallocs 0 0)
            Posix_spawn "/bin/ls" None None ["ls"%string] None))
    Posix_spawn (caller_args "/bin/ls" None None ["ls"%string] None)
  /\ (exists answer,
       spawn_events
         (outcome_trace
            (run (hook_posix_spawn_generic (sample_world true no_files all_mallocs 0 0)
                    Posix_spawnp "/usr/libexec/xpcproxy" None None
                    ["xpcproxy"%string; "com.apple.job"%string] None)))
       = [(Posix_spawnp,
           {| sa_path := "/usr/libexec/xpcproxy"%string; sa_file_actions := None;
              sa_attrp := Some {| psa_flags := 0; psa_rest := [] |};
              sa_argv := ["xpcproxy"%string; "com.apple.job"%string];
              sa_envp := Some ["HOME=/"%string;
                               ("DYLD_INSERT_LIBRARIES=" ++ psh_dylib)%string] |},
           answer)])
  /\ which_dylib (sample_world false no_files all_mallocs 0 0)
       "/usr/libexec/sshd-keygen-wrapper" ["/usr/sbin/sshd"%string; "-i"%string]
     = None.
Proof.
  split; [|split].
  - pose proof (C6_injection_policy (sample_world true no_files all_mallocs 0 0)
                  Posix_spawn "/bin/ls" None None ["ls"%string] None) as H.
    cbv zeta in H. destruct H as [_ [H _]].
    apply H; [reflexivity|discriminate].
  - pose proof (C6_injection_policy (sample_world true no_files all_mallocs 0 0)
                  Posix_spawnp "/usr/libexec/xpcproxy" None None
                  ["xpcproxy"%string; "com.apple.job"%string] None) as H.
    cbv zeta in H. destruct H as [_ [_ [_ [_ [_ H]]]]].
    apply (H psh_dylib {| psa_flags := 0; psa_rest := [] |}); reflexivity.
  - pose proof (C6_injection_policy (sample_world false no_files all_mallocs 0 0)
                  Posix_spawn "/usr/libexec/sshd-keygen-wrapper" None None
                  ["/usr/sbin/sshd"%string; "-i"%string] None) as H.
    cbv zeta in H. destruct H as [_ [_ [_ [H _]]]].
    apply H; [reflexivity|].
    right. right. exists "/usr/sbin/sshd"%string. split; [reflexivity|].
    right. exists "/usr/sbin"%string. reflexivity.
Defined.

(** ** C7: the unrestriction handshake *)

(** C7 (as amended). For a call that reaches the inspector with a target
    it flags as restricted, once the flags were stored in the hook's
    attributes: the attributes passed on have START_SUSPENDED set and the
    helper is told to resume exactly when the caller had not asked for
    suspension. For a SETEXEC spawn the marker descriptor is made and
    marked close-on-exec, then the helper is spawned by the original
    posix_spawn with the pid of the current process before the real
    primitive is called; when it does not start, the hook falls back to the
    primitive with the caller's arguments. Without SETEXEC the real
    primitive is called first and the helper is spawned, with the pid of
    the child, only when it returned 0; whether that helper starts or not,
    the hook returns the answer of the primitive. The helper always gets
    the arguments (pid, resume, exec) and the environment "_MSSafeMode=1".
    The pid of the child is read through [pidp]: where that is NULL the
    hook stops at the read, and no helper is started. *)
Theorem C7_unrestriction_handshake :
  forall w old path fa attrp argv envp lib my_attr,
  (attrp <> None -> getflags_ok w = true) ->
  which_dylib w path argv = Some lib -> access_R_OK w lib = true ->
  match attrp with
  | Some attr => if malloc_ok w BlkMyAttr then Some attr else None
  | None => attr_init w
  end = Some my_attr ->
  scan_verdict (effective_env w envp) = SafeDisabled ->
  malloc_ok w BlkNew = true -> malloc_ok w BlkNewEnvp = true ->
  restricted w path = true -> setflags_ok w = true ->
  let flags := caller_flags attrp in
  let was_suspended := negb (Z.land flags POSIX_SPAWN_START_SUSPENDED =? 0) in
  let attr' := {| psa_flags := Z.lor flags POSIX_SPAWN_START_SUSPENDED;
                  psa_rest := psa_rest my_attr |} in
  let injected := {| sa_path := path; sa_file_actions := fa;
                     sa_attrp := Some attr'; sa_argv := argv;
                     sa_envp := Some (spec_env_last false lib (effective_env w envp)) |} in
  let original := caller_args path fa attrp argv envp in
  let out := run (hook_posix_spawn_generic w old path fa attrp argv envp) in
  exists tr1,
    spawn_events tr1 = []
    /\ Z.land (psa_flags attr') POSIX_SPAWN_START_SUSPENDED = POSIX_SPAWN_START_SUSPENDED
    /\ (forall pid resume is_exec,
          unrestrict_args pid resume is_exec =
          {| sa_path := "/Library/Substitute/Helpers/unrestrict"%string;
             sa_file_actions := None; sa_attrp := None;
             sa_argv := ["/Library/Substitute/Helpers/unrestrict"%string; pid_s pid;
                         (if resume then "1" else "0")%string;
                         (if is_exec then "1" else "0")%string];
             sa_envp := Some ["_MSSafeMode=1"%string] |})
    /\ (Z.land flags POSIX_SPAWN_SETEXEC <> 0 -> dup2_ok w = true -> fcntl_ok w = true ->
        exists h rest,
          outcome_trace out =
            (tr1 ++ [Acquire MarkerFd; SetCloexec;
                     Spawn Posix_spawn
                       (unrestrict_args (getpid w) (negb was_suspended) true) h]
                 ++ rest)%list
          /\ match h with
             | SpawnReplaces => rest = []
             | SpawnReturns hret hpid =>
                 if hret =? 0
                 then exists r rest',
                        rest = Waitpid hpid :: Spawn old injected r :: rest'
                 else exists r rest',
                        rest = Spawn old original r :: rest'
                        /\ spawn_events rest' = []
                        /\ match r with
                           | SpawnReturns rv pid => exists tr', out = Returns (rv, pid) tr'
                           | SpawnReplaces => exists tr', out = Replaced tr'
                           end
             end)
    /\ (Z.land flags POSIX_SPAWN_SETEXEC = 0 ->
        exists r rest,
          outcome_trace out = (tr1 ++ [Spawn old injected r] ++ rest)%list
          /\ match r with
             | SpawnReplaces => rest = []
             | SpawnReturns rv pid =>
                 if rv =? 0
                 then if pidp_ok w
                      then exists h,
                             spawn_events rest =
                               [(Posix_spawn,
                                 unrestrict_args pid (negb was_suspended) false, h)]
                             /\ (h = SpawnReplaces
                                 \/ exists tr', out = Returns (0, pid) tr')
                      else rest = [] /\ exists tr', out = Crashes tr'
                 else spawn_events rest = []
                      /\ exists tr', out = Returns (rv, pid) tr'
             end).
Proof.
  intros w old path fa attrp argv envp lib my_attr Hg Hlib Hacc Hattr Hv
         Hm1 Hm2 Hr Hs flags was_suspended attr' injected original out.
  destruct (scan_verdict_disabled _ Hv) as [orig [n Hscan]].
  subst out injected.
  rewrite (hook_reaches_handshake w old path fa attrp argv envp lib my_attr orig n)
    by assumption.
  rewrite <- (build_envp_spec lib _ orig n Hscan).
  match goal with
  | |- context [unrestrict_and_spawn _ _ _ _ _ _ _ _ _ _ _ ?t] =>
      exists (t ++ inspector_trace w path)%list
  end.
  split.
  { destruct (is_some (rebuilt_new false lib orig)); read_spawns; reflexivity. }
  apply handshake_after_inspection; assumption.
Qed.

Lemma C7_unrestriction_handshake_witness :
  exists tr1,
    spawn_events tr1 = []
    /\ exists r rest,
         outcome_trace
           (run (hook_posix_spawn_generic
                   (sample_world false (fun _ => Some restricted_binary) all_mallocs 0 0)
                   Posix_spawn "/bin/ls" None None ["ls"%string] None))
         = (tr1
              ++ [Spawn Posix_spawn
                    {| sa_path := "/bin/ls"%string; sa_file_actions := None;
                       sa_attrp := Some {| psa_flags := POSIX_SPAWN_START_SUSPENDED;
                                           psa_rest := [] |};
                       sa_argv := ["ls"%string];
                       sa_envp := Some ["HOME=/"%string;
                                        ("DYLD_INSERT_LIBRARIES=" ++ bl_dylib)%string] |}
                    r]
              ++ rest)%list.
Proof.
  destruct (C7_unrestriction_handshake
              (sample_world false (fun _ => Some restricted_binary) all_mallocs 0 0)
              Posix_spawn "/bin/ls" None None ["ls"%string] None
              bl_dylib {| psa_flags := 0; psa_rest := [] |})
    as [tr1 [Hq [_ [_ [_ H]]]]];
    try reflexivity; try discriminate.
  exists tr1. split; [exact Hq|].
  destruct (H eq_refl) as [r [rest [Ht _]]].
  exists r, rest. exact Ht.
Defined.

(** C7, counterexample. A restricted target spawned as a new process: the
    primitive returns 0, then the helper fails to start. The hook returns 0
    and the primitive is never called with the caller's arguments. *)
Lemma C7_helper_failure_after_spawn_is_ignored :
  match run (hook_posix_spawn_generic
               (sample_world false (fun _ => Some restricted_binary) all_mallocs 2 0)
               Posix_spawn "/bin/ls" None None ["ls"%string] None) with
  | Returns r tr =>
      r = (0, 42)
      /\ spawn_events tr =
         [(Posix_spawn,
           {| sa_path := "/bin/ls"%string; sa_file_actions := None;
              sa_attrp := Some {| psa_flags := POSIX_SPAWN_START_SUSPENDED;
                                  psa_rest := [] |};
              sa_argv := ["ls"%string];
              sa_envp := Some ["HOME=/"%string;
                               ("DYLD_INSERT_LIBRARIES=" ++ bl_dylib)%string] |},
           SpawnReturns 0 42);
          (Posix_spawn, unrestrict_args 42 true false, SpawnReturns 2 42)]
      /\ ~ In (caller_args "/bin/ls" None None ["ls"%string] None)
              (map (fun e => snd (fst e)) (spawn_events tr))
  | _ => False
  end.
Proof.
  vm_compute. split; [reflexivity|]. split; [reflexivity|].
  intros [H|[H|[]]]; discriminate H.
Qed.

(** ** C8: the sandbox override *)

(** C8. The override answers 0 without calling the original checker
    exactly when the operation is "mach-lookup" and the name in the first
    slot is "com.ex.substituted"; for any other operation or name it calls
    the original checker with the same pid, operation, type and five slots
    and hands back its answer. *)
Theorem C8_sandbox_override : forall w pid op type blah tr,
  (op = "mach-lookup"%string ->
   cstring_at w (blah0 blah) = Some "com.ex.substituted"%string ->
   hook_sandbox_check w pid op type blah tr = Returns 0 tr)
  /\ (op <> "mach-lookup"%string
      \/ (exists name, cstring_at w (blah0 blah) = Some name
                       /\ name <> "com.ex.substituted"%string) ->
      hook_sandbox_check w pid op type blah tr =
      Returns (old_sandbox_check w tr pid op type blah)
              (tr ++ [SandboxCheck pid op type blah
                        (old_sandbox_check w tr pid op type blah)])%list)
  /\ (forall r,
        hook_sandbox_check w pid op type blah tr = Returns r tr ->
        r = 0 /\ op = "mach-lookup"%string
        /\ cstring_at w (blah0 blah) = Some "com.ex.substituted"%string).
Proof.
  intros w pid op type blah tr. unfold hook_sandbox_check.
  assert (Hgrow : forall e : event, (tr ++ [e])%list <> tr).
  { intros e H. apply (f_equal (@List.length event)) in H.
    rewrite length_app in H. cbn in H. lia. }
  split; [|split].
  - intros -> ->. reflexivity.
  - intros [Hop|[nm [Hn Hne]]].
    + apply String.eqb_neq in Hop. now rewrite Hop.
    + rewrite Hn. apply String.eqb_neq in Hne. rewrite Hne.
      destruct (op =? "mach-lookup")%string; reflexivity.
  - intros r H.
    destruct (op =? "mach-lookup")%string eqn:Eop.
    + apply String.eqb_eq in Eop.
      destruct (cstring_at w (blah0 blah)) as [nm|] eqn:En; [|discriminate H].
      destruct (nm =? "com.ex.substituted")%string eqn:Enm.
      * apply String.eqb_eq in Enm. subst nm. inversion H. auto.
      * inversion H as [[Hr Ht]]. now apply Hgrow in Ht.
    + inversion H as [[Hr Ht]]. now apply Hgrow in Ht.
Qed.

Lemma C8_sandbox_override_witness :
  hook_sandbox_check (sample_world false no_files all_mallocs 0 0) 5 "mach-lookup" 2
    {| blah0 := 4096; blah1 := 0; blah2 := 0; blah3 := 0; blah4 := 0 |} []
  = Returns 0 []
  /\ hook_sandbox_check (sample_world false no_files all_mallocs 0 0) 5 "mach-lookup" 2
       {| blah0 := 8192; blah1 := 0; blah2 := 0; blah3 := 0; blah4 := 0 |} []
     = Returns 1
         [SandboxCheck 5 "mach-lookup" 2
            {| blah0 := 8192; blah1 := 0; blah2 := 0; blah3 := 0; blah4 := 0 |} 1].
Proof.
  split.
  - apply (C8_sandbox_override (sample_world false no_files all_mallocs 0 0));
      reflexivity.
  - apply (proj1 (proj2 (C8_sandbox_override
                           (sample_world false no_files all_mallocs 0 0) 5
                           "mach-lookup" 2
                           {| blah0 := 8192; blah1 := 0; blah2 := 0; blah3 := 0;
                              blah4 := 0 |} []))).
    right. exists "com.apple.other"%string. split; [reflexivity|discriminate].
Defined.

(** ** C9: resources *)

(** C9 (as amended). When an interception call returns, the descriptor and
    the buffer of the inspector, the environment string and array and the
    attributes have been released, and nothing was released that was not
    held. The marker descriptor, made only for a restricted target spawned
    with SETEXEC, is never closed: once made it is still open when the call
    returns, marked close-on-exec unless the [fcntl] that marks it
    failed. *)
Theorem C9_resources_released_on_return : forall w old path fa attrp argv envp r tr,
  run (hook_posix_spawn_generic w old path fa attrp argv envp) = Returns r tr ->
  live tr = (if marker_made tr then [MarkerFd] else [])
  /\ releases_held [] tr = true
  /\ marker_closed tr = false
  /\ cloexec_set tr = marker_made tr && fcntl_ok w
  /\ (marker_made tr = true ->
      restricted w path = true
      /\ Z.land (caller_flags attrp) POSIX_SPAWN_SETEXEC <> 0
      /\ dup2_ok w = true).
Proof.
  intros w old path fa attrp argv envp r tr H.
  pose proof (hook_outcomes w old path fa attrp argv envp) as Ho.
  rewrite H in Ho. destruct Ho as [H0 [H1 Ho]].
  split; [|exact Ho].
  destruct (marker_made tr); [now apply H1|now apply H0].
Qed.

Lemma C9_resources_released_on_return_witness :
  exists tr,
    run (hook_posix_spawn_generic
           (sample_world false (fun _ => Some fat_binary) all_mallocs 0 0)
           Posix_spawn "/bin/ls" None None ["ls"%string] None)
    = Returns (0, 42) tr
    /\ live tr = (if marker_made tr then [MarkerFd] else [])
    /\ releases_held [] tr = true
    /\ marker_closed tr = false
    /\ cloexec_set tr
       = marker_made tr
         && fcntl_ok (sample_world false (fun _ => Some fat_binary) all_mallocs 0 0)
    /\ (marker_made tr = true ->
        restricted (sample_world false (fun _ => Some fat_binary) all_mallocs 0 0)
                   "/bin/ls" = true
        /\ Z.land (caller_flags None) POSIX_SPAWN_SETEXEC <> 0
        /\ dup2_ok (sample_world false (fun _ => Some fat_binary) all_mallocs 0 0)
           = true).
Proof.
  eexists. split; [vm_compute; reflexivity|].
  eapply (C9_resources_released_on_return
            (sample_world false (fun _ => Some fat_binary) all_mallocs 0 0)
            Posix_spawn "/bin/ls" None None ["ls"%string] None (0, 42)).
  vm_compute. reflexivity.
Defined.

(** C9, counterexample. A restricted target spawned with
    POSIX_SPAWN_SETEXEC whose exec fails: the hook returns the error and
    descriptor 255 is still open. *)
Lemma C9_marker_descriptor_stays_open :
  match run (hook_posix_spawn_generic
               (sample_world false (fun _ => Some restricted_binary) all_mallocs 0 2)
               Posix_spawn "/bin/ls" None
               (Some {| psa_flags := POSIX_SPAWN_SETEXEC; psa_rest := [] |})
               ["ls"%string] None) with
  | Returns r tr => r = (2, 42) /\ live tr = [MarkerFd]
  | _ => False
  end.
Proof. vm_compute. split; reflexivity. Qed.

(** When the [fcntl] fails the hook falls back to the original call, and
    the descriptor it leaves open is not marked close-on-exec. *)
Example marker_without_cloexec :
  match run (hook_posix_spawn_generic
               (fcntl_failing
                  (sample_world false (fun _ => Some restricted_binary) all_mallocs 0 2))
               Posix_spawn "/bin/ls" None
               (Some {| psa_flags := POSIX_SPAWN_SETEXEC; psa_rest := [] |})
               ["ls"%string] None) with
  | Returns r tr => r = (2, 42) /\ live tr = [MarkerFd] /\ cloexec_set tr = false
  | _ => False
  end.
Proof. vm_compute. repeat split. Qed.

(** ** C10: a missing program name *)

(** C10. When argv[0] is a null pointer the exclusion test runs on the
    empty string: its basename is empty, it is not "sshd", and the policy
    decides as it does for any other program name. *)
Theorem C10_null_argv0_is_not_sshd : forall w path argv,
  hd_error argv = None ->
  argv0_or_empty argv = EmptyString
  /\ xbasename (argv0_or_empty argv) <> "sshd"%string
  /\ which_dylib w path argv =
     (if is_launchd w then
        if (path =? "/usr/libexec/xpcproxy")%string then Some psh_dylib else None
      else if ((path =? "/Library/Substitute/Helpers/substituted")
               || (path =? "/usr/sbin/notifyd"))%string
           then None else Some bl_dylib).
Proof.
  intros w path argv H. split; [|split].
  - unfold argv0_or_empty. now rewrite H.
  - unfold argv0_or_empty. rewrite H. discriminate.
  - unfold which_dylib, argv0_or_empty. rewrite H.
    change (xbasename "" =? "sshd")%string with false.
    rewrite orb_false_r.
    destruct (is_launchd w); [|reflexivity].
    destruct (path =? "/usr/libexec/xpcproxy")%string; reflexivity.
Qed.

Lemma C10_null_argv0_is_not_sshd_witness :
  which_dylib (sample_world false no_files all_mallocs 0 0) "/usr/sbin/sshd" []
  = Some bl_dylib.
Proof.
  exact (proj2 (proj2 (C10_null_argv0_is_not_sshd
                         (sample_world false no_files all_mallocs 0 0)
                         "/usr/sbin/sshd" [] eq_refl))).
Defined.

(** With a program name the exclusion applies to its basename. *)
Example which_dylib_sshd :
  which_dylib (sample_world false no_files all_mallocs 0 0) "/usr/libexec/sshd-wrapper"
              ["/usr/sbin/sshd"%string; "-i"%string] = None.
Proof. reflexivity. Qed.

(** * Further properties of the code *)

(** ** C strings *)

(** X1. [advance] succeeds exactly when the template is a prefix of the
    string, and then leaves the pointer right behind the prefix. *)
Theorem X1_advance_prefix : forall strp template rest,
  advance strp template = Some rest <-> strp = (template ++ rest)%string.
Proof.
  intros strp template rest. split.
  - apply advance_inv.
  - intros ->. apply advance_append.
Qed.

Lemma X1_advance_prefix_witness :
  advance "_MSSafeMode=YES" "_MSSafeMode=" = Some "YES"%string.
Proof.
  apply (proj2 (X1_advance_prefix "_MSSafeMode=YES" "_MSSafeMode=" "YES")).
  reflexivity.
Defined.

(** X2. [xbasename] cuts the path behind its last slash: the result has no
    slash, and the path is the result behind a directory part that is
    empty or ends in a slash. A path without a slash is its own basename. *)
Theorem X2_xbasename_decomposition : forall path,
  slash_free (xbasename path) = true
  /\ (exists dir,
        path = (dir ++ xbasename path)%string
        /\ (dir = EmptyString \/ exists d, dir = (d ++ "/")%string))
  /\ (slash_free path = true -> xbasename path = path).
Proof.
  intros path. unfold xbasename.
  destruct (strrchr_slash path) as [tail|] eqn:E.
  - destruct (strrchr_slash_some _ _ E) as [Hf [dir Hd]].
    split; [exact Hf|]. split.
    + exists (dir ++ "/")%string. split.
      * rewrite Hd. now rewrite append_assoc.
      * right. now exists dir.
    + intros H. apply strrchr_slash_none in H. congruence.
  - split; [now apply strrchr_slash_none|]. split.
    + exists EmptyString. split; [reflexivity|now left].
    + reflexivity.
Qed.

Lemma X2_xbasename_decomposition_witness : xbasename "launchd" = "launchd"%string.
Proof.
  apply (proj2 (proj2 (X2_xbasename_decomposition "launchd"))). reflexivity.
Defined.

(** X3. Outside launchd, for a target that is neither the substituted
    helper nor notifyd, injection is skipped for the program name exactly
    when argv[0] is "sshd" or ends in "/sshd". *)
Theorem X3_sshd_exclusion : forall w path argv,
  is_launchd w = false ->
  path <> "/Library/Substitute/Helpers/substituted"%string ->
  path <> "/usr/sbin/notifyd"%string ->
  (which_dylib w path argv = None <->
   exists argv0,
     hd_error argv = Some argv0
     /\ (argv0 = "sshd"%string \/ exists dir, argv0 = (dir ++ "/sshd")%string)).
Proof.
  intros w path argv Hl H1 H2. unfold which_dylib, argv0_or_empty. rewrite Hl.
  apply String.eqb_neq in H1, H2. rewrite H1, H2. cbn [orb].
  destruct (hd_error argv) as [a|].
  - destruct (String.eqb_spec (xbasename a) "sshd") as [E|E].
    + split; [intros _|reflexivity]. exists a. split; [reflexivity|].
      destruct (xbasename_suffix a) as [dir [Hd Hdir]]. rewrite E in Hd.
      destruct Hdir as [->|[d ->]].
      * now left.
      * right. exists d. rewrite Hd. now rewrite append_assoc.
    + split; [discriminate|]. intros [a0 [Ha Hs]]. inversion Ha; subst a0.
      exfalso. apply E. destruct Hs as [->|[dir ->]]; [reflexivity|].
      now apply (xbasename_dir_name dir "sshd").
  - split; [discriminate|]. intros [a0 [Ha _]]. discriminate.
Qed.

Lemma X3_sshd_exclusion_witness :
  which_dylib (sample_world false no_files all_mallocs 0 0) "/usr/libexec/sshd-keygen-wrapper"
              ["/usr/sbin/sshd"%string; "-i"%string] = None.
Proof.
  apply (proj2 (X3_sshd_exclusion (sample_world false no_files all_mallocs 0 0)
                  "/usr/libexec/sshd-keygen-wrapper"
                  ["/usr/sbin/sshd"%string; "-i"%string]
                  eq_refl ltac:(discriminate) ltac:(discriminate))).
  exists "/usr/sbin/sshd"%string. split; [reflexivity|].
  right. exists "/usr/sbin"%string. reflexivity.
Defined.

(** ** The buffers of the rewriter *)

Lemma append_piece_length : forall newv piece,
  String.length (append_piece newv piece)
  = (String.length newv + (if nonempty newv then 1 else 0) + String.length piece)%nat.
Proof.
  intros [|c newv] piece; [reflexivity|].
  cbn [append_piece nonempty]. rewrite !length_append. cbn. lia.
Qed.

Lemma upto_colon_length : forall p,
  String.length p =
  (String.length (fst (upto_colon p))
   + match snd (upto_colon p) with
     | Some rest => 1 + String.length rest
     | None => 0
     end)%nat.
Proof.
  induction p as [|c p IH]; [reflexivity|].
  cbn [upto_colon]. destruct (Ascii.eqb c ":"); [reflexivity|].
  destruct (upto_colon p) as [piece next]. cbn [fst snd] in *.
  cbn [String.length]. lia.
Qed.

(** The buffer after any number of rounds of the loop of lines 272-290. *)
Lemma dil_loop_length : forall fuel p newv,
  (String.length (dil_loop fuel p newv)
   <= String.length newv + (if nonempty newv then 1 else 0) + String.length p)%nat.
Proof.
  induction fuel as [|fuel IH]; intros p newv; [cbn; lia|].
  destruct p as [|c p']; [cbn; lia|].
  set (p := String c p').
  change (dil_loop (S fuel) p newv) with
    (let '(piece, next) := upto_colon p in
     let newv' := if is_substitute piece then newv else append_piece newv piece in
     match next with None => newv' | Some rest => dil_loop fuel rest newv' end).
  pose proof (upto_colon_length p) as Hp.
  destruct (upto_colon p) as [piece next]. cbn [fst snd] in Hp. cbv zeta.
  pose proof (append_piece_length newv piece) as Ha.
  destruct next as [rest|].
  - specialize (IH rest (if is_substitute piece then newv
                         else append_piece newv piece)).
    destruct (is_substitute piece).
    + lia.
    + destruct (nonempty (append_piece newv piece)), (nonempty newv); lia.
  - destruct (is_substitute piece); lia.
Qed.

(** X4. The text written to [new], its terminating NUL included, fits the
    allocation of lines 266-268 for every library the policy can select,
    after every round of the rebuild loop and after the library was
    appended. *)
Theorem X4_new_fits_its_allocation : forall w path argv lib safe orig fuel,
  which_dylib w path argv = Some lib ->
  (String.length (DYLD_INSERT_LIBRARIES_eq ++ dil_loop fuel orig "") + 1
   <= new_alloc_size orig)%nat
  /\ (String.length (DYLD_INSERT_LIBRARIES_eq ++ rebuilt_value safe lib orig) + 1
      <= new_alloc_size orig)%nat.
Proof.
  intros w path argv lib safe orig fuel Hlib.
  assert (Hl : (String.length lib <= String.length psh_dylib)%nat).
  { unfold which_dylib in Hlib.
    destruct (is_launchd w).
    - destruct (negb _); inversion Hlib. lia.
    - destruct (_ || _); inversion Hlib. cbn. lia. }
  unfold new_alloc_size. rewrite !length_append. split.
  - pose proof (dil_loop_length fuel orig "") as H. cbn [nonempty String.length] in H.
    lia.
  - unfold rebuilt_value.
    pose proof (dil_loop_length (S (String.length orig)) orig "") as H.
    cbn [nonempty String.length] in H.
    destruct safe; [lia|].
    rewrite append_piece_length. destruct (nonempty _); lia.
Qed.

Lemma X4_new_fits_its_allocation_witness :
  (String.length
     (DYLD_INSERT_LIBRARIES_eq ++ rebuilt_value false psh_dylib "/usr/lib/a.dylib") + 1
   <= new_alloc_size "/usr/lib/a.dylib")%nat.
Proof.
  apply (proj2 (X4_new_fits_its_allocation
                  (sample_world true no_files all_mallocs 0 0)
                  "/usr/libexec/xpcproxy" [] psh_dylib false "/usr/lib/a.dylib"
                  0%nat eq_refl)).
Defined.

(** The allocation is not larger than needed. *)
Example new_fills_its_allocation :
  (String.length
     (DYLD_INSERT_LIBRARIES_eq ++ rebuilt_value false psh_dylib "/usr/lib/a.dylib") + 1)%nat
  = new_alloc_size "/usr/lib/a.dylib".
Proof. reflexivity. Qed.

Lemma filter_length_le : forall (A : Type) (f : A -> bool) l,
  (List.length (filter f l) <= List.length l)%nat.
Proof.
  induction l as [|x l IH]; cbn; [lia|]. destruct (f x); cbn; lia.
Qed.

(** X5. The pointers stored into [new_envp], the terminating NULL
    included, fit the [env_count + 2] slots allocated at line 304. *)
Theorem X5_new_envp_fits_its_allocation : forall my_envp env_count new,
  (List.length (build_envp my_envp env_count new) + 1 <= new_envp_slots env_count)%nat.
Proof.
  intros my_envp env_count new. unfold build_envp, new_envp_slots.
  rewrite length_app.
  pose proof (filter_length_le _ (fun env => negb (is_dyld_insert env))
                (firstn env_count my_envp)) as Hf.
  pose proof (firstn_le_length env_count my_envp) as Hn.
  destruct new; cbn [List.length]; lia.
Qed.

(** ** The rebuilt value *)

Lemma filter_nonempty_drop_leading : forall l,
  filter nonempty (drop_leading_empty l) = filter nonempty l.
Proof.
  induction l as [|x l IH]; [reflexivity|].
  destruct x; cbn [drop_leading_empty filter nonempty]; [exact IH|reflexivity].
Qed.

Lemma filter_drop_trailing : forall (h : string -> bool) l,
  h EmptyString = false ->
  filter h (drop_trailing_empty l) = filter h l.
Proof.
  intros h l Hh. induction l as [|x l IH]; [reflexivity|].
  destruct l as [|y l].
  - destruct x; cbn [drop_trailing_empty filter]; [now rewrite Hh|reflexivity].
  - rewrite drop_trailing_empty_cons by discriminate.
    cbn [filter] in *. now rewrite IH.
Qed.

Lemma filter_swap : forall (f g : string -> bool) l,
  filter f (filter g l) = filter g (filter f l).
Proof.
  induction l as [|x l IH]; [reflexivity|].
  cbn [filter]. destruct (g x) eqn:Eg, (f x) eqn:Ef; cbn [filter];
    rewrite ?Eg, ?Ef, IH; reflexivity.
Qed.

Lemma filter_nonempty_split_join : forall l,
  Forall (fun x => colon_free x = true) l ->
  filter nonempty (split_colons (join_colons l)) = filter nonempty l.
Proof.
  intros [|x l] H; [reflexivity|]. rewrite split_join; [reflexivity|discriminate|exact H].
Qed.

Lemma which_dylib_companion : forall w path argv lib,
  which_dylib w path argv = Some lib -> is_substitute lib = true.
Proof.
  intros w path argv lib H. unfold which_dylib in H.
  destruct (is_launchd w).
  - destruct (negb _); inversion H. reflexivity.
  - destruct (_ || _); inversion H. reflexivity.
Qed.

(** X6. No library of somebody else is lost or reordered: the non-empty
    elements of the rebuilt value are the non-empty elements of the
    captured value that are not companion paths, in their order, followed
    by the selected library unless safe mode is on. *)
Theorem X6_other_libraries_are_kept : forall w path argv lib safe orig,
  which_dylib w path argv = Some lib ->
  filter nonempty (split_colons (rebuilt_value safe lib orig))
  = (filter nonempty (filter (fun e => negb (is_substitute e)) (split_colons orig))
       ++ (if safe then [] else [lib]))%list.
Proof.
  intros w path argv lib safe orig Hlib.
  apply which_dylib_companion in Hlib.
  assert (HLne : nonempty lib = true)
    by (apply is_substitute_inv in Hlib as [->| ->]; reflexivity).
  assert (HLc : colon_free lib = true)
    by (apply is_substitute_inv in Hlib as [->| ->]; reflexivity).
  rewrite rebuilt_value_merged. unfold merged_value.
  rewrite filter_nonempty_split_join.
  2:{ apply Forall_drop_leading_empty, Forall_app. split.
      - apply Forall_filter, dil_elements_colon_free.
      - destruct safe; repeat constructor. exact HLc. }
  rewrite filter_nonempty_drop_leading, filter_app.
  f_equal.
  - unfold dil_elements.
    rewrite filter_swap, (filter_drop_trailing nonempty) by reflexivity.
    apply filter_swap.
  - destruct safe; cbn [filter]; [reflexivity|]. now rewrite HLne.
Qed.

Lemma X6_other_libraries_are_kept_witness :
  filter nonempty
    (split_colons
       (rebuilt_value false bl_dylib
          ("/a.dylib::" ++ psh_dylib ++ ":/b.dylib:" ++ bl_dylib)))
  = ["/a.dylib"%string; "/b.dylib"%string; bl_dylib].
Proof.
  apply (X6_other_libraries_are_kept (sample_world false no_files all_mallocs 0 0)
           "/bin/ls" ["ls"%string] bl_dylib false
           ("/a.dylib::" ++ psh_dylib ++ ":/b.dylib:" ++ bl_dylib) eq_refl).
Defined.

(** X7. With safe mode off the selected library is the last element of
    the rebuilt value and no other element is a companion path: it is
    there exactly once, whatever the captured value held. *)
Theorem X7_selected_library_once_at_the_end : forall w path argv lib orig,
  which_dylib w path argv = Some lib ->
  exists others,
    split_colons (rebuilt_value false lib orig) = (others ++ [lib])%list
    /\ Forall (fun e => e <> bl_dylib /\ e <> psh_dylib) others.
Proof.
  intros w path argv lib orig Hlib.
  rewrite rebuilt_value_merged.
  apply merged_value_ends_with_library.
  exact (which_dylib_companion _ _ _ _ Hlib).
Qed.

Lemma X7_selected_library_once_at_the_end_witness :
  exists others,
    split_colons (rebuilt_value false psh_dylib (psh_dylib ++ ":/x:" ++ psh_dylib))
    = (others ++ [psh_dylib])%list
    /\ Forall (fun e => e <> bl_dylib /\ e <> psh_dylib) others.
Proof.
  apply (X7_selected_library_once_at_the_end
           (sample_world true no_files all_mallocs 0 0)
           "/usr/libexec/xpcproxy" [] psh_dylib
           (psh_dylib ++ ":/x:" ++ psh_dylib) eq_refl).
Defined.

(** ** Safe mode *)

Lemma safe_mode_values_perm : forall l l',
  Permutation l l' -> Permutation (safe_mode_values l) (safe_mode_values l').
Proof.
  induction 1 as [|x l l' Hp IH|x y l|l l' l'' H1 IH1 H2 IH2];
    cbn [safe_mode_values].
  - constructor.
  - destruct (advance_safe_mode x); [now constructor|exact IH].
  - destruct (advance_safe_mode x), (advance_safe_mode y);
      try apply Permutation_refl. apply perm_swap.
  - eapply Permutation_trans; eassumption.
Qed.

Lemma existsb_perm : forall (f : string -> bool) l l',
  Permutation l l' -> existsb f l = existsb f l'.
Proof.
  intros f l l' Hp.
  destruct (existsb f l) eqn:E.
  - symmetry. apply existsb_exists in E as [x [Hx Hf]].
    apply existsb_exists. exists x. split; [|exact Hf].
    eapply Permutation_in; eassumption.
  - symmetry. apply not_true_is_false. intros E'.
    apply existsb_exists in E' as [x [Hx Hf]].
    assert (existsb f l = true) as E''.
    { apply existsb_exists. exists x. split; [|exact Hf].
      eapply Permutation_in; [apply Permutation_sym|]; eassumption. }
    congruence.
Qed.

(** X8. What the scan decides about safe mode does not depend on the
    order of the entries: an unrecognized value anywhere skips the
    injection, otherwise a "1" or "YES" anywhere turns safe mode on. *)
Theorem X8_safe_mode_ignores_order : forall envp envp',
  Permutation envp envp' -> scan_verdict envp = scan_verdict envp'.
Proof.
  intros envp envp' Hp. rewrite !scan_verdict_spec.
  apply safe_mode_values_perm in Hp.
  now rewrite (existsb_perm value_invalid _ _ Hp), (existsb_perm value_enables _ _ Hp).
Qed.

Lemma X8_safe_mode_ignores_order_witness :
  scan_verdict ["_MSSafeMode=0"%string; "A=b"%string; "_SubstituteSafeMode=YES"%string]
  = scan_verdict ["_SubstituteSafeMode=YES"%string; "_MSSafeMode=0"%string; "A=b"%string].
Proof.
  apply X8_safe_mode_ignores_order.
  apply Permutation_sym.
  apply (Permutation_cons_app ["_MSSafeMode=0"%string; "A=b"%string] []).
  apply Permutation_refl.
Defined.

(** ** The inspector *)

Lemma scan_load_commands_bool : forall content buf_ok sizeofcmds offset,
  scan_load_commands content buf_ok sizeofcmds offset =
  buf_ok && match bytes_at content offset sizeofcmds with
            | Some cmds => memmem cmds sectname
            | None => false
            end.
Proof.
  intros content buf_ok sizeofcmds offset.
  unfold scan_load_commands, bytes_at, pread. cbv zeta.
  set (avail := firstn (Z.to_nat sizeofcmds) (skipn (Z.to_nat offset) content)).
  destruct buf_ok; cbn [andb].
  - assert ((Z.of_nat (List.length avail) <? 0) = false) as -> by (apply Z.ltb_ge; lia).
    cbn [orb]. destruct (Z.of_nat (List.length avail) =? sizeofcmds); reflexivity.
  - destruct avail as [|b avail']; [|reflexivity].
    cbn [orb Z.ltb Z.compare]. destruct (0 =? sizeofcmds); reflexivity.
Qed.

(** The verdict from the load commands the specification points at. *)
Lemma restricted_spec_form : forall w filename,
  restricted w filename =
  match file_bytes w filename with
  | None => false
  | Some content =>
      malloc_ok w BlkCmdsBuf
      && match spec_load_commands content with
         | Some cmds => memmem cmds sectname
         | None => false
         end
  end.
Proof.
  intros w filename. rewrite restricted_closed_form. unfold spec_load_commands.
  destruct (file_bytes w filename) as [content|]; [|reflexivity].
  rewrite read_header_spec.
  destruct (spec_slice content) as [slice|]; [|now rewrite andb_false_r].
  destruct (bytes_at content slice 28) as [u|]; [|now rewrite andb_false_r].
  rewrite <- (classify_magic_spec u).
  destruct (classify_magic (u_magic u)) as [[swap is64]|]; [|now rewrite andb_false_r].
  apply scan_load_commands_bool.
Qed.

Lemma bytes_at_skipn : forall content a b n,
  0 <= a -> 0 <= b ->
  bytes_at (skipn (Z.to_nat a) content) b n = bytes_at content (a + b) n.
Proof.
  intros content a b n Ha Hb. unfold bytes_at.
  rewrite skipn_skipn. replace (Z.to_nat b + Z.to_nat a)%nat with (Z.to_nat (a + b)) by lia.
  reflexivity.
Qed.

Lemma be32_at_nonneg : forall u i, 0 <= be32_at u i.
Proof.
  intros u i. rewrite <- field32_swap. unfold OSSwapInt32.
  repeat (apply Z.lor_nonneg; split); try apply Z.shiftl_nonneg;
    apply Z.land_nonneg; right; lia.
Qed.

Lemma spec_slice_nonneg : forall content slice,
  spec_slice content = Some slice -> 0 <= slice.
Proof.
  intros content slice H. unfold spec_slice in H.
  destruct (bytes_at content 0 28) as [h|]; [|discriminate].
  destruct (be32_at h 0 =? FAT_MAGIC).
  - destruct (be32_at h 4 =? 0); inversion H. apply be32_at_nonneg.
  - inversion H. lia.
Qed.

Lemma spec_mach_header_size : forall h hsize n,
  spec_mach_header h = Some (hsize, n) -> hsize = 28 \/ hsize = 32.
Proof.
  intros h hsize n H. unfold spec_mach_header in H.
  repeat match type of H with
         | (if ?b then _ else _) = _ => destruct b
         end; inversion H; auto.
Qed.

(** X9. The verdict of a container is the verdict of the slice it points
    at, taken as a file of its own: for a file whose header to inspect
    starts at offset [slice] (0, or the offset of the first architecture
    of a fat container, below 2^32 - 32), the inspector answers as it does
    on the bytes of the file from [slice] on, provided these do not start
    with the fat magic themselves. *)
Theorem X9_fat_verdict_is_first_slice : forall w fat thin content slice,
  file_bytes w fat = Some content ->
  file_bytes w thin = Some (skipn (Z.to_nat slice) content) ->
  spec_slice content = Some slice ->
  slice + 32 < 2 ^ 32 ->
  (forall h, bytes_at content slice 28 = Some h -> be32_at h 0 <> FAT_MAGIC) ->
  restricted w fat = restricted w thin.
Proof.
  intros w fat thin content slice Hfat Hthin Hs Hsmall Hnf.
  pose proof (spec_slice_nonneg _ _ Hs) as H0.
  rewrite !restricted_spec_form, Hfat, Hthin. f_equal.
  unfold spec_load_commands at 1 2. rewrite Hs.
  unfold spec_slice at 1.
  rewrite (bytes_at_skipn content slice 0 28) by lia.
  rewrite Z.add_0_r.
  destruct (bytes_at content slice 28) as [h|] eqn:Eh; [|reflexivity].
  specialize (Hnf h eq_refl). apply Z.eqb_neq in Hnf. rewrite Hnf.
  rewrite (bytes_at_skipn content slice 0 28) by lia.
  rewrite Z.add_0_r, Eh.
  destruct (spec_mach_header h) as [[hsize n]|] eqn:Em; [|reflexivity].
  destruct (spec_mach_header_size _ _ _ Em) as [-> | ->].
  - rewrite !Z.mod_small by lia.
    rewrite bytes_at_skipn by lia. reflexivity.
  - rewrite !Z.mod_small by lia.
    rewrite bytes_at_skipn by lia. reflexivity.
Qed.

Lemma X9_fat_verdict_is_first_slice_witness :
  restricted (sample_world false fat_and_slice all_mallocs 0 0) "/fat"
  = restricted (sample_world false fat_and_slice all_mallocs 0 0) "/slice".
Proof.
  apply (X9_fat_verdict_is_first_slice
           (sample_world false fat_and_slice all_mallocs 0 0) "/fat" "/slice"
           fat_binary 32).
  - reflexivity.
  - reflexivity.
  - reflexivity.
  - reflexivity.
  - intros h H. vm_compute in H. inversion H. vm_compute. discriminate.
Defined.

Lemma bytes_at_app : forall content extra offset n l,
  bytes_at content offset n = Some l ->
  bytes_at (content ++ extra) offset n = Some l.
Proof.
  intros content extra offset n l H. unfold bytes_at in *.
  set (A := skipn (Z.to_nat offset) content) in *.
  destruct (Z.eqb_spec (Z.of_nat (List.length (firstn (Z.to_nat n) A))) n) as [E|E];
    [|discriminate].
  inversion H; subst l. clear H.
  rewrite skipn_app. fold A. rewrite firstn_app.
  assert (Hle : (Z.to_nat n <= List.length A)%nat).
  { rewrite length_firstn in E. lia. }
  replace (Z.to_nat n - List.length A)%nat with 0%nat by lia.
  cbn [firstn]. rewrite app_nil_r.
  destruct (Z.eqb_spec (Z.of_nat (List.length (firstn (Z.to_nat n) A))) n);
    [reflexivity|contradiction].
Qed.

Lemma spec_load_commands_app : forall content extra cmds,
  spec_load_commands content = Some cmds ->
  spec_load_commands (content ++ extra) = Some cmds.
Proof.
  intros content extra cmds H. unfold spec_load_commands, spec_slice in *.
  destruct (bytes_at content 0 28) as [h0|] eqn:E0; [|discriminate].
  rewrite (bytes_at_app _ extra _ _ _ E0).
  destruct (if be32_at h0 0 =? FAT_MAGIC
            then if be32_at h0 4 =? 0 then None else Some (be32_at h0 16)
            else Some 0) as [slice|]; [|discriminate].
  destruct (bytes_at content slice 28) as [h|] eqn:Eh; [|discriminate].
  rewrite (bytes_at_app _ extra _ _ _ Eh).
  destruct (spec_mach_header h) as [[hsize n]|]; [|discriminate].
  now apply bytes_at_app.
Qed.

(** X10. Bytes behind the inspected ones cannot hide the marker: a file
    that is found restricted stays so when anything is appended to it, be
    it further architectures or data. *)
Theorem X10_appended_bytes_keep_the_verdict : forall w name name' content extra,
  file_bytes w name = Some content ->
  file_bytes w name' = Some (content ++ extra)%list ->
  restricted w name = true ->
  restricted w name' = true.
Proof.
  intros w name name' content extra Hf Hf' Hr.
  rewrite restricted_spec_form, Hf in Hr. rewrite restricted_spec_form, Hf'.
  apply andb_true_iff in Hr as [Hm Hr]. rewrite Hm. cbn [andb].
  destruct (spec_load_commands content) as [cmds|] eqn:E; [|discriminate].
  now rewrite (spec_load_commands_app _ extra _ E).
Qed.

Lemma X10_appended_bytes_keep_the_verdict_witness :
  restricted
    (sample_world false
       (fun p => if (p =? "/a")%string then Some restricted_binary
                 else Some (restricted_binary ++ lookalike_binary)%list)
       all_mallocs 0 0) "/b" = true.
Proof.
  apply (X10_appended_bytes_keep_the_verdict
           (sample_world false
              (fun p => if (p =? "/a")%string then Some restricted_binary
                        else Some (restricted_binary ++ lookalike_binary)%list)
              all_mallocs 0 0)
           "/a" "/b" restricted_binary lookalike_binary);
    reflexivity.
Defined.

(** ** The calls made by the hook *)

Lemma helper_call_intro : forall pid b1 b2 r,
  helper_call (Posix_spawn, unrestrict_args pid b1 b2, r).
Proof. intros. now exists pid, b1, b2. Qed.

Ltac settle_helpers :=
  repeat first [ apply Forall_nil
               | apply Forall_cons; [apply helper_call_intro|] ].

Ltac use_answers :=
  repeat match goal with
         | H : ?x = _ |- context [?x] => rewrite H
         end.

(** The real call: which arguments [old] can get. *)
Ltac settle_target :=
  first
    [ left; reflexivity
    | right; do 2 eexists;
      split; [first [reflexivity|eassumption]|];
      split; [first [reflexivity|eassumption]|];
      split; [unfold my_attr_of; use_answers; reflexivity|];
      split; [unfold scan_verdict, effective_env; use_answers; reflexivity|];
      unfold injected_args, caller_flags, effective_env;
      erewrite <- build_envp_spec by eassumption;
      use_answers; reflexivity ].

Ltac settle_decomposition :=
  eexists; split;
  [ first
      [ exists [], []; split; [reflexivity|]
      | eexists [_], []; split; [reflexivity|]
      | exists []; eexists [_]; split; [reflexivity|]
      | eexists [_], [_]; split; [reflexivity|] ];
    split; [cbn [List.length]; lia|];
    split; [cbn [List.length]; lia|];
    split; settle_helpers
  | settle_target ].

(** When the hook returns, it has called [old] once, between at most one
    call of the helper before and one after, and it hands back what that
    call answered. The arguments were the caller's, or the injected ones. *)
Lemma hook_target_call : forall w old path fa attrp argv envp r tr,
  run (hook_posix_spawn_generic w old path fa attrp argv envp) = Returns r tr ->
  exists a,
    target_call old a r tr
    /\ (a = caller_args path fa attrp argv envp
        \/ exists lib my_attr,
             which_dylib w path argv = Some lib
             /\ access_R_OK w lib = true
             /\ my_attr_of w attrp = Some my_attr
             /\ scan_verdict (effective_env w envp) = SafeDisabled
             /\ a = injected_args w path fa attrp argv envp lib my_attr).
Proof.
  intros w old path fa attrp argv envp r tr H.
  cut (match run (hook_posix_spawn_generic w old path fa attrp argv envp) with
       | Returns r tr =>
           exists a,
             target_call old a r tr
             /\ (a = caller_args path fa attrp argv envp
                 \/ exists lib my_attr,
                      which_dylib w path argv = Some lib
                      /\ access_R_OK w lib = true
                      /\ my_attr_of w attrp = Some my_attr
                      /\ scan_verdict (effective_env w envp) = SafeDisabled
                      /\ a = injected_args w path fa attrp argv envp lib my_attr)
       | Crashes _ => True
       | Replaced _ => True
       end).
  { rewrite H. trivial. }
  clear H r tr.
  unfold_hook.
  repeat step_outcome.
  all: try exact I.
  all: unfold target_call; read_spawns.
  all: settle_decomposition.
Qed.

Lemma handshake_events_app : forall tr1 tr2,
  filter handshake_event (tr1 ++ tr2)%list
  = (filter handshake_event tr1 ++ filter handshake_event tr2)%list.
Proof. intros. apply filter_app. Qed.

Lemma inspector_events_app : forall tr1 tr2,
  filter inspector_event (tr1 ++ tr2)%list
  = (filter inspector_event tr1 ++ filter inspector_event tr2)%list.
Proof. intros. apply filter_app. Qed.

Lemma inspector_trace_no_handshake : forall w filename,
  filter handshake_event (inspector_trace w filename) = [].
Proof.
  intros. destruct (inspector_trace_cases w filename) as [-> | [-> | ->]];
    reflexivity.
Qed.

Ltac read_handshake :=
  repeat (progress cbn [filter handshake_event app]
          || rewrite handshake_events_app
          || rewrite inspector_trace_no_handshake).

Ltac read_inspector :=
  repeat (progress cbn [filter inspector_event app]
          || rewrite inspector_events_app).

Ltac settle_prims :=
  repeat first [ apply Forall_nil
               | apply Forall_cons;
                 [first [left; reflexivity | right; apply helper_call_intro]|] ].

(** However the hook ends: every process-creating call is a call of [old]
    or a call of the helper; a target that is not restricted gets no
    handshake and at most one such call; the target binary is opened only
    on the way to an injection. *)
Lemma hook_trace_shape : forall w old path fa attrp argv envp,
  let tr := outcome_trace (run (hook_posix_spawn_generic w old path fa attrp argv envp)) in
  Forall (fun e => fst (fst e) = old \/ helper_call e) (spawn_events tr)
  /\ (restricted w path = false ->
      filter handshake_event tr = [] /\ (List.length (spawn_events tr) <= 1)%nat)
  /\ (filter inspector_event tr <> [] ->
      exists lib,
        which_dylib w path argv = Some lib /\ access_R_OK w lib = true
        /\ my_attr_of w attrp <> None
        /\ scan_verdict (effective_env w envp) = SafeDisabled
        /\ malloc_ok w BlkNew = true /\ malloc_ok w BlkNewEnvp = true).
Proof.
  intros w old path fa attrp argv envp.
  match goal with
  | |- let tr := outcome_trace ?o in @?P tr =>
      set (shape := P);
      cut (match o with
           | Returns _ tr => shape tr
           | Crashes tr => shape tr
           | Replaced tr => shape tr
           end);
      [destruct o; trivial|]
  end.
  unfold_hook.
  repeat step_outcome.
  all: subst shape; cbv beta.
  all: split; [read_spawns; settle_prims|split].
  all: try (intros H;
            first [ congruence
                  | clear H; split;
                    [read_handshake; reflexivity|read_spawns; cbn [List.length]; lia] ]).
  all: try (intros H; exfalso; apply H; read_inspector; reflexivity).
  all: intros _; eexists;
    split; [first [reflexivity|eassumption]|];
    split; [first [reflexivity|eassumption]|];
    split; [unfold my_attr_of; use_answers; discriminate|];
    split; [unfold scan_verdict, effective_env; use_answers; reflexivity|];
    split; first [reflexivity|assumption].
Qed.

(** ** What reaches the target *)

(** X11. When the hook returns, the original primitive was called once,
    with the path, the file actions and the argv of the caller, the helper
    at most once before and at most once after it, and the hook hands back
    the answer and the pid of that call. *)
Theorem X11_hook_hands_back_the_target_answer :
  forall w old path fa attrp argv envp r tr,
  run (hook_posix_spawn_generic w old path fa attrp argv envp) = Returns r tr ->
  exists a,
    target_call old a r tr
    /\ sa_path a = path /\ sa_file_actions a = fa /\ sa_argv a = argv.
Proof.
  intros w old path fa attrp argv envp r tr H.
  destruct (hook_target_call _ _ _ _ _ _ _ _ _ H)
    as [a [Ht [->|[lib [my_attr [_ [_ [_ [_ ->]]]]]]]]];
    eexists; (split; [exact Ht|]); repeat split.
Qed.

Lemma X11_hook_hands_back_the_target_answer_witness :
  exists tr,
    run (hook_posix_spawn_generic
           (sample_world false (fun _ => Some restricted_binary) all_mallocs 0 0)
           Posix_spawnp "ls" None None ["ls"%string] None)
    = Returns (0, 42) tr
    /\ exists a,
         target_call Posix_spawnp a (0, 42) tr
         /\ sa_path a = "ls"%string /\ sa_file_actions a = None
         /\ sa_argv a = ["ls"%string].
Proof.
  eexists. split; [vm_compute; reflexivity|].
  eapply (X11_hook_hands_back_the_target_answer
            (sample_world false (fun _ => Some restricted_binary) all_mallocs 0 0)
            Posix_spawnp "ls" None None ["ls"%string] None (0, 42)).
  vm_compute. reflexivity.
Defined.

Lemma suspended_bit_only : forall flags n,
  n <> 7 ->
  Z.testbit (Z.lor flags POSIX_SPAWN_START_SUSPENDED) n = Z.testbit flags n.
Proof.
  intros flags n Hn. rewrite Z.lor_spec.
  change POSIX_SPAWN_START_SUSPENDED with (2 ^ 7).
  rewrite Z.pow2_bits_eqb by lia.
  destruct (Z.eqb_spec 7 n); [congruence|]. apply orb_false_r.
Qed.

(** X12. Attributes given by the caller reach the target with nothing
    changed but the START_SUSPENDED flag, bit 7, and with nothing changed
    at all when the target is not restricted. *)
Theorem X12_only_the_suspended_flag_is_added :
  forall w old path fa attr argv envp r tr,
  run (hook_posix_spawn_generic w old path fa (Some attr) argv envp) = Returns r tr ->
  exists a attr',
    target_call old a r tr
    /\ sa_attrp a = Some attr'
    /\ psa_rest attr' = psa_rest attr
    /\ (forall n, n <> 7 ->
          Z.testbit (psa_flags attr') n = Z.testbit (psa_flags attr) n)
    /\ (restricted w path = false -> attr' = attr).
Proof.
  intros w old path fa attr argv envp r tr H.
  destruct (hook_target_call _ _ _ _ _ _ _ _ _ H)
    as [a [Ht [->|[lib [my_attr [_ [_ [Hmy [_ ->]]]]]]]]].
  - exists (caller_args path fa (Some attr) argv envp), attr.
    split; [exact Ht|repeat split].
  - unfold my_attr_of in Hmy.
    destruct (malloc_ok w BlkMyAttr); inversion Hmy; subst my_attr.
    unfold injected_args, caller_flags. cbn [sa_attrp].
    eexists; eexists. split; [exact Ht|]. split; [reflexivity|].
    destruct (restricted w path); cbn [psa_rest psa_flags].
    + split; [reflexivity|]. split; [|discriminate].
      intros n Hn. now apply suspended_bit_only.
    + repeat split.
Qed.

Lemma X12_only_the_suspended_flag_is_added_witness :
  exists tr,
    run (hook_posix_spawn_generic
           (sample_world false (fun _ => Some restricted_binary) all_mallocs 0 0)
           Posix_spawn "/bin/ls" None
           (Some {| psa_flags := 0x4000; psa_rest := [] |}) ["ls"%string] None)
    = Returns (0, 42) tr
    /\ exists a attr',
         target_call Posix_spawn a (0, 42) tr
         /\ sa_attrp a = Some attr'
         /\ psa_rest attr' = []
         /\ (forall n, n <> 7 -> Z.testbit (psa_flags attr') n = Z.testbit 0x4000 n)
         /\ (restricted (sample_world false (fun _ => Some restricted_binary)
                           all_mallocs 0 0) "/bin/ls" = false ->
             attr' = {| psa_flags := 0x4000; psa_rest := [] |}).
Proof.
  eexists. split; [vm_compute; reflexivity|].
  eapply (X12_only_the_suspended_flag_is_added
            (sample_world false (fun _ => Some restricted_binary) all_mallocs 0 0)
            Posix_spawn "/bin/ls" None {| psa_flags := 0x4000; psa_rest := [] |}
            ["ls"%string] None (0, 42)).
  vm_compute. reflexivity.
Defined.

(** X13. The environment the target gets is the pointer of the caller as
    it came, or the effective environment with its entries other than
    DYLD_INSERT_LIBRARIES in their order, the same safe-mode values, and
    one DYLD_INSERT_LIBRARIES entry, whose last element is the selected
    library and which holds no other companion path. *)
Theorem X13_environment_of_the_target :
  forall w old path fa attrp argv envp r tr,
  run (hook_posix_spawn_generic w old path fa attrp argv envp) = Returns r tr ->
  exists a,
    target_call old a r tr
    /\ (sa_envp a = envp
        \/ exists lib e v others,
             which_dylib w path argv = Some lib
             /\ sa_envp a = Some e
             /\ other_entries e = other_entries (effective_env w envp)
             /\ safe_mode_values e = safe_mode_values (effective_env w envp)
             /\ dyld_insert_values e = [v]
             /\ split_colons v = (others ++ [lib])%list
             /\ Forall (fun x => x <> bl_dylib /\ x <> psh_dylib) others).
Proof.
  intros w old path fa attrp argv envp r tr H.
  destruct (hook_target_call _ _ _ _ _ _ _ _ _ H)
    as [a [Ht [->|[lib [my_attr [Hlib [_ [_ [_ ->]]]]]]]]];
    eexists; (split; [exact Ht|]); [now left|right].
  pose proof (which_dylib_companion _ _ _ _ Hlib) as Hc.
  destruct (merged_value_ends_with_library lib
              (last_dyld_insert (effective_env w envp)) Hc) as [others [Hs Ho]].
  exists lib. eexists. eexists. exists others.
  split; [exact Hlib|]. split; [reflexivity|].
  unfold spec_env_last.
  split; [apply other_entries_rewritten|].
  split; [apply safe_mode_values_rewritten|].
  split; [|split; [exact Hs|exact Ho]].
  rewrite dyld_insert_values_rewritten. now apply merged_value_nonempty.
Qed.

Lemma X13_environment_of_the_target_witness :
  exists tr,
    run (hook_posix_spawn_generic
           (sample_world false no_files all_mallocs 0 0)
           Posix_spawn "/bin/ls" None None ["ls"%string]
           (Some ["DYLD_INSERT_LIBRARIES=/a.dylib"%string; "HOME=/"%string]))
    = Returns (0, 42) tr
    /\ exists a,
         target_call Posix_spawn a (0, 42) tr
         /\ (sa_envp a
             = Some ["DYLD_INSERT_LIBRARIES=/a.dylib"%string; "HOME=/"%string]
             \/ exists lib e v others,
                  which_dylib (sample_world false no_files all_mallocs 0 0)
                              "/bin/ls" ["ls"%string] = Some lib
                  /\ sa_envp a = Some e
                  /\ other_entries e
                     = other_entries
                         (effective_env (sample_world false no_files all_mallocs 0 0)
                            (Some ["DYLD_INSERT_LIBRARIES=/a.dylib"%string;
                                   "HOME=/"%string]))
                  /\ safe_mode_values e
                     = safe_mode_values
                         (effective_env (sample_world false no_files all_mallocs 0 0)
                            (Some ["DYLD_INSERT_LIBRARIES=/a.dylib"%string;
                                   "HOME=/"%string]))
                  /\ dyld_insert_values e = [v]
                  /\ split_colons v = (others ++ [lib])%list
                  /\ Forall (fun x => x <> bl_dylib /\ x <> psh_dylib) others).
Proof.
  eexists. split; [vm_compute; reflexivity|].
  eapply (X13_environment_of_the_target
            (sample_world false no_files all_mallocs 0 0)
            Posix_spawn "/bin/ls" None None ["ls"%string]
            (Some ["DYLD_INSERT_LIBRARIES=/a.dylib"%string; "HOME=/"%string])
            (0, 42)).
  vm_compute. reflexivity.
Defined.

(** ** What the hook does not do *)

(** X14. For a target the inspector does not flag, however the hook
    ends: no marker descriptor, no close-on-exec, no wait, and at most one
    process-creating call. *)
Theorem X14_unrestricted_target_gets_no_handshake :
  forall w old path fa attrp argv envp,
  restricted w path = false ->
  let tr := outcome_trace (run (hook_posix_spawn_generic w old path fa attrp argv envp)) in
  filter handshake_event tr = [] /\ (List.length (spawn_events tr) <= 1)%nat.
Proof.
  intros w old path fa attrp argv envp Hr.
  exact (proj1 (proj2 (hook_trace_shape w old path fa attrp argv envp)) Hr).
Qed.

Lemma X14_unrestricted_target_gets_no_handshake_witness :
  filter handshake_event
    (outcome_trace
       (run (hook_posix_spawn_generic
               (sample_world false (fun _ => Some lookalike_binary) all_mallocs 0 0)
               Posix_spawn "/bin/ls" None None ["ls"%string] None))) = []
  /\ (List.length
        (spawn_events
           (outcome_trace
              (run (hook_posix_spawn_generic
                      (sample_world false (fun _ => Some lookalike_binary)
                         all_mallocs 0 0)
                      Posix_spawn "/bin/ls" None None ["ls"%string] None)))) <= 1)%nat.
Proof.
  apply (X14_unrestricted_target_gets_no_handshake
           (sample_world false (fun _ => Some lookalike_binary) all_mallocs 0 0)
           Posix_spawn "/bin/ls" None None ["ls"%string] None).
  vm_compute. reflexivity.
Defined.

(** X15. The hook opens the target binary only on the way to an
    injection: a library was selected and can be read, the attributes were
    made, safe mode is off, and both buffers were allocated. *)
Theorem X15_target_is_opened_only_to_inject :
  forall w old path fa attrp argv envp,
  In (Acquire InspectorFd)
     (outcome_trace (run (hook_posix_spawn_generic w old path fa attrp argv envp))) ->
  exists lib,
    which_dylib w path argv = Some lib /\ access_R_OK w lib = true
    /\ my_attr_of w attrp <> None
    /\ scan_verdict (effective_env w envp) = SafeDisabled
    /\ malloc_ok w BlkNew = true /\ malloc_ok w BlkNewEnvp = true.
Proof.
  intros w old path fa attrp argv envp Hin.
  apply (proj2 (proj2 (hook_trace_shape w old path fa attrp argv envp))).
  intros Hf.
  assert (Hin' : In (Acquire InspectorFd)
                    (filter inspector_event
                       (outcome_trace
                          (run (hook_posix_spawn_generic w old path fa attrp argv envp))))).
  { apply filter_In. split; [exact Hin|reflexivity]. }
  rewrite Hf in Hin'. destruct Hin'.
Qed.

Lemma X15_target_is_opened_only_to_inject_witness :
  exists lib,
    which_dylib (sample_world true (fun _ => Some fat_binary) all_mallocs 0 0)
                "/usr/libexec/xpcproxy" [] = Some lib
    /\ access_R_OK (sample_world true (fun _ => Some fat_binary) all_mallocs 0 0) lib = true
    /\ my_attr_of (sample_world true (fun _ => Some fat_binary) all_mallocs 0 0) None <> None
    /\ scan_verdict
         (effective_env (sample_world true (fun _ => Some fat_binary) all_mallocs 0 0) None)
       = SafeDisabled
    /\ malloc_ok (sample_world true (fun _ => Some fat_binary) all_mallocs 0 0) BlkNew = true
    /\ malloc_ok (sample_world true (fun _ => Some fat_binary) all_mallocs 0 0) BlkNewEnvp
       = true.
Proof.
  apply (X15_target_is_opened_only_to_inject
           (sample_world true (fun _ => Some fat_binary) all_mallocs 0 0)
           Posix_spawn "/usr/libexec/xpcproxy" None None [] None).
  vm_compute. tauto.
Defined.

(** X16. [hook_posix_spawn] calls no primitive but the original
    posix_spawn; [hook_posix_spawnp] calls the original posix_spawnp, and
    the original posix_spawn only to start the helper. *)
Theorem X16_primitives_called_by_the_hooks : forall w path fa attrp argv envp,
  Forall (fun e => fst (fst e) = Posix_spawn)
         (spawn_events
            (outcome_trace (run (hook_posix_spawn w path fa attrp argv envp))))
  /\ Forall (fun e => fst (fst e) = Posix_spawnp \/ helper_call e)
            (spawn_events
               (outcome_trace (run (hook_posix_spawnp w path fa attrp argv envp)))).
Proof.
  intros w path fa attrp argv envp. split.
  - pose proof (proj1 (hook_trace_shape w Posix_spawn path fa attrp argv envp)) as H.
    cbv zeta in H. unfold hook_posix_spawn.
    eapply Forall_impl; [|exact H].
    intros e [He|[pid [b1 [b2 He]]]]; [exact He|].
    now rewrite He.
  - exact (proj1 (hook_trace_shape w Posix_spawnp path fa attrp argv envp)).
Qed.

(** ** Safe mode and the helper *)

(** X17. With safe mode on and both buffers allocated, the hook only
    calls the original primitive with the arguments of the caller: the
    environment it has rebuilt is not passed on. The helper, which the
    hook starts with "_MSSafeMode=1", is such a target. *)
Theorem X17_safe_mode_passes_the_caller_arguments :
  forall w old path fa attrp argv envp,
  scan_verdict (effective_env w envp) = SafeEnabled ->
  malloc_ok w BlkNew = true -> malloc_ok w BlkNewEnvp = true ->
  only_call (run (hook_posix_spawn_generic w old path fa attrp argv envp)) old
            (caller_args path fa attrp argv envp).
Proof.
  intros w old path fa attrp argv envp H Hm1 Hm2.
  unfold scan_verdict, effective_env in H.
  unfold run, hook_posix_spawn_generic, rewrite_and_spawn.
  destruct (scan_env _ false "" 0) as [|[|] ? ?] eqn:Es; try discriminate H.
  rewrite Hm1, Hm2. cbn [negb].
  repeat match goal with
         | |- only_call (skip _ _ _ _ _ _ _ _ _ _ _) _ _ =>
             now apply skip_only_call
         | |- only_call (bind _ _ _) _ _ => cbv beta iota delta [bind emit free ret]
         | |- context [match ?o with Some _ => _ | None => _ end] => destruct o
         | |- context [if ?b then _ else _] => destruct b
         end.
Qed.

Lemma X17_safe_mode_passes_the_caller_arguments_witness :
  only_call
    (run (hook_posix_spawn_generic
            (sample_world false no_files all_mallocs 0 0) Posix_spawn
            unrestrict_prog None None
            (sa_argv (unrestrict_args 42 true false))
            (sa_envp (unrestrict_args 42 true false))))
    Posix_spawn (unrestrict_args 42 true false).
Proof.
  apply (X17_safe_mode_passes_the_caller_arguments
           (sample_world false no_files all_mallocs 0 0) Posix_spawn
           unrestrict_prog None None
           (sa_argv (unrestrict_args 42 true false))
           (sa_envp (unrestrict_args 42 true false)));
    reflexivity.
Defined.

(** ** The constructor *)

Lemma strstr_found : forall haystack needle found,
  strstr haystack needle = Some found ->
  exists before after,
    haystack = (before ++ found)%string /\ found = (needle ++ after)%string.
Proof.
  induction haystack as [|c haystack IH]; intros needle found H;
    cbn [strstr] in H.
  - destruct (advance "" needle) as [rest|] eqn:E; [|discriminate].
    inversion H; subst found. exists EmptyString, rest.
    split; [reflexivity|]. now apply advance_inv.
  - destruct (advance (String c haystack) needle) as [rest|] eqn:E.
    + inversion H; subst found. exists EmptyString, rest.
      split; [reflexivity|]. now apply advance_inv.
    + destruct (IH _ _ H) as [before [after [Hb Ha]]].
      exists (String c before), after. split; [|exact Ha].
      cbn [append]. now rewrite <- Hb.
Qed.

Lemma strstr_occurs : forall before needle after,
  strstr (before ++ needle ++ after) needle <> None.
Proof.
  induction before as [|c before IH]; intros needle after.
  - cbn [append]. destruct (needle ++ after)%string eqn:E;
      cbn [strstr]; rewrite <- E, advance_append; discriminate.
  - cbn [append strstr].
    destruct (advance (String c (before ++ needle ++ after)) needle);
      [discriminate|apply IH].
Qed.

Lemma init_is_launchd : forall image0 w,
  is_launchd (init image0 w) = true
  <-> exists before after, image0 = (before ++ "launchd" ++ after)%string.
Proof.
  intros image0 w. unfold init. cbn [is_launchd]. split.
  - destruct (strstr image0 "launchd") as [found|] eqn:E; [|discriminate].
    intros _. destruct (strstr_found _ _ _ E) as [before [after [Hb Ha]]].
    exists before, after. now rewrite <- Ha.
  - intros [before [after ->]].
    pose proof (strstr_occurs before "launchd" after) as H.
    destruct (strstr _ _); [reflexivity|now destruct H].
Qed.

(** X18. The launchd policy belongs to every process whose main image
    name contains "launchd" anywhere, directories included:
    posixspawn-hook.dylib is selected exactly when the name contains it
    and the target is "/usr/libexec/xpcproxy". *)
Theorem X18_launchd_is_any_image_named_so : forall image0 w path argv,
  which_dylib (init image0 w) path argv = Some psh_dylib
  <-> (exists before after, image0 = (before ++ "launchd" ++ after)%string)
      /\ path = "/usr/libexec/xpcproxy"%string.
Proof.
  intros image0 w path argv.
  pose proof (init_is_launchd image0 w) as Hl.
  unfold which_dylib.
  destruct (is_launchd (init image0 w)).
  - destruct (String.eqb_spec path "/usr/libexec/xpcproxy") as [E|E]; cbn [negb].
    + split; [intros _|reflexivity]. split; [now apply Hl|exact E].
    + split; [discriminate|]. intros [_ E']. contradiction.
  - split.
    + intros H. exfalso. destruct (_ || _); [discriminate|].
      inversion H.
    + intros [H _]. apply Hl in H. discriminate.
Qed.

Lemma X18_launchd_is_any_image_named_so_witness :
  which_dylib (init "/opt/launchd-tools/bin/watch"
                    (sample_world false no_files all_mallocs 0 0))
              "/usr/libexec/xpcproxy" ["xpcproxy"%string]
  = Some psh_dylib.
Proof.
  apply (proj2 (X18_launchd_is_any_image_named_so "/opt/launchd-tools/bin/watch"
                  (sample_world false no_files all_mallocs 0 0)
                  "/usr/libexec/xpcproxy" ["xpcproxy"%string])).
  split; [|reflexivity].
  exists "/opt/"%string, "-tools/bin/watch"%string. reflexivity.
Defined.
